(** * Multi-resolution cosmology: the correction model, the tension
      statistics, the cross-survey classifier and the cosmology converters

    A shallow embedding of the numerical core of the repository
    (utils/corrections.py, utils/cosmology.py, utils/validation.py,
    config/corrections.py and the statistics of joint_lambda_cdm_fit.py).

    Number model.  The Python code works on IEEE binary64 floats.  Here a
    finite float is a real number ([R]) and every operation is the exact
    one, so rounding, overflow and underflow are outside the model.  What
    the model keeps of the float semantics is the control flow:
    - a Python [float] operation that divides by zero (or raises zero to a
      negative power) raises [ZeroDivisionError];
    - the same operation on a numpy value gives inf or nan together with a
      RuntimeWarning; the model stops there with [NonFinite] and follows
      such values no further;
    - a negative Python float raised to a non-integer power is a Python
      [complex]. *)

From Stdlib Require Import Reals Lra Lia ZArith List String.
From stdpp Require Import gmap strings sorting.
Import ListNotations.

Local Open Scope R_scope.

(** ** Outcomes of a call *)

Module Py.

(** The exception classes the modelled code can raise.
    [ValidationError] and [ParameterValidationError] are the classes of
    utils/validation.py (both subclasses of [ValueError] in the source). *)
Inductive exn : Type :=
  | ZeroDivisionError
  | ValueError
  | ValidationError
  | ParameterValidationError.

Inductive outcome (A : Type) : Type :=
  | Returns (a : A)
  | Raises (e : exn)
  | NonFinite.

Arguments Returns {A} a.
Arguments Raises {A} e.
Arguments NonFinite {A}.

Definition bind {A B : Type} (m : outcome A) (k : A -> outcome B) : outcome B :=
  match m with
  | Returns a => k a
  | Raises e => Raises e
  | NonFinite => NonFinite
  end.

Definition is_raises {A : Type} (m : outcome A) : bool :=
  match m with Raises _ => true | _ => false end.

(** A Python number: a float, or the complex a float power can produce. *)
Inductive num : Type :=
  | Float (x : R)
  | Complex (re im : R).

End Py.

Export Py.

#[global] Instance outcome_bind : MBind outcome :=
  fun A B k m => Py.bind m k.
#[global] Instance outcome_ret : MRet outcome := @Returns.

(** ** Float primitives *)

#[global] Instance Rlt_decision (x y : R) : Decision (x < y) := Rlt_dec x y.
#[global] Instance Rle_decision (x y : R) : Decision (x <= y) := Rle_dec x y.

(** [a / b] on Python floats. *)
Definition py_div (a b : R) : outcome R :=
  if Req_dec_T b 0 then Raises ZeroDivisionError else Returns (a / b).

(** [a / b] when one operand is a numpy scalar or array element. *)
Definition np_div (a b : R) : outcome R :=
  if Req_dec_T b 0 then NonFinite else Returns (a / b).

Definition is_integral (y : R) : bool :=
  if Req_dec_T (frac_part y) 0 then true else false.

(** [x ** y] on Python floats (float_pow of CPython, finite operands). *)
Definition py_pow (x y : R) : outcome num :=
  if Req_dec_T y 0 then Returns (Float 1)
  else if Rlt_dec 0 x then Returns (Float (Rpower x y))
  else if Req_dec_T x 0 then
    (if Rlt_dec y 0 then Raises ZeroDivisionError else Returns (Float 0))
  else if is_integral y then Returns (Float (powerRZ x (Int_part y)))
  else Returns (Complex (Rpower (- x) y * cos (y * PI))
                        (Rpower (- x) y * sin (y * PI))).

(** [x ** y] on numpy float64 elements: no exception, no complex. *)
Definition np_pow (x y : R) : outcome R :=
  if Req_dec_T y 0 then Returns 1
  else if Rlt_dec 0 x then Returns (Rpower x y)
  else if Req_dec_T x 0 then
    (if Rlt_dec y 0 then NonFinite else Returns 0)
  else if is_integral y then Returns (powerRZ x (Int_part y))
  else NonFinite.

(** [np.sqrt]. *)
Definition np_sqrt (x : R) : outcome R :=
  if Rlt_dec x 0 then NonFinite else Returns (sqrt x).

(** float * number *)
Definition num_scale (b : R) (n : num) : num :=
  match n with
  | Float x => Float (b * x)
  | Complex re im => Complex (b * re) (b * im)
  end.

(** ** config/corrections.py *)

Definition UNIVERSAL_BASELINE : R := 200 / 10000.
Definition REDSHIFT_SCALING_EXPONENT : R := - (5 / 10).

(** ** utils/corrections.py: the correction model *)

Definition calculate_redshift_dependent_correction
    (z_eff baseline exponent : R) : outcome num :=
  z_factor ← py_pow (1 + z_eff) exponent;
  Returns (num_scale baseline z_factor).

(** The call with the default exponent. *)
Definition correction (z_eff baseline : R) : outcome num :=
  calculate_redshift_dependent_correction z_eff baseline REDSHIFT_SCALING_EXPONENT.

(** ** utils/validation.py

    The trailing [np.isnan] / [np.isinf] tests of the validators never
    fire on finite values and are not part of the model. *)

Definition validate_redshift (z max_z : R) : outcome unit :=
  if Rlt_dec z 0 then Raises ParameterValidationError
  else if Rlt_dec max_z z then Raises ParameterValidationError
  else Returns tt.

Definition validate_measurement_uncertainty (value sigma : R) : outcome unit :=
  if Rle_dec sigma 0 then Raises ValidationError
  else if Rlt_dec (Rabs value) sigma then Raises ValidationError
  else Returns tt.

(** ** Lists of floats: Python [sum], numpy reductions and broadcasting *)

(** The mathematical sum, used to state the formulas. *)
Definition Rsum (l : list R) : R := fold_right Rplus 0 l.

(** [sum(l)]: a left fold that starts from 0. *)
Definition py_sum (l : list R) : R := fold_left Rplus l 0.

(** [np.mean(l)]: nan (with a warning) on an empty array. *)
Definition np_mean (l : list R) : outcome R :=
  match l with
  | [] => NonFinite
  | _ :: _ => Returns (py_sum l / INR (length l))
  end.

(** [np.std(l)], population form (ddof = 0). *)
Definition np_std (l : list R) : outcome R :=
  m ← np_mean l;
  v ← np_mean (map (fun x => (x - m) * (x - m)) l);
  np_sqrt v.

(** [np.max(l)]: a [ValueError] on an empty array. *)
Definition np_max (l : list R) : outcome R :=
  match l with
  | [] => Raises ValueError
  | x :: l' => Returns (fold_left Rmax l' x)
  end.

(** An elementwise operation on two one-dimensional arrays: equal shapes,
    or one of them of length one, otherwise the shapes do not broadcast. *)
Definition np_broadcast (f : R -> R -> outcome R) (a b : list R)
    : outcome (list R) :=
  if (length a =? length b)%nat
  then mapM (fun p : R * R => f p.1 p.2) (combine a b)
  else match a, b with
       | [x], _ => mapM (f x) b
       | _, [y] => mapM (fun x => f x y) a
       | _, _ => Raises ValueError
       end.

(** ** config/corrections.py: the scaling factor *)

(** On a Python float. *)
Definition calculate_redshift_scaling_factor (z exponent : R) : outcome num :=
  py_pow (1 + z) exponent.

(** On a numpy array. *)
Definition calculate_redshift_scaling_factor_array
    (z : list R) (exponent : R) : outcome (list R) :=
  mapM (fun zi => np_pow (1 + zi) exponent) z.

(** ** utils/corrections.py: baseline fit *)

Record baseline_fit : Type := {
  fit_baseline : R;
  fit_baseline_std : R;
  fit_rms_residual : R;
  fit_n_bins : nat
}.

Definition fit_baseline_from_bins (z_effective_values corrections : list R)
    : outcome baseline_fit :=
  z_factors ← calculate_redshift_scaling_factor_array
                z_effective_values REDSHIFT_SCALING_EXPONENT;
  baselines ← np_broadcast np_div corrections z_factors;
  baseline_mean ← np_mean baselines;
  baseline_std ← np_std baselines;
  let predicted := map (fun f => baseline_mean * f) z_factors in
  residuals ← np_broadcast (fun c p => Returns (c - p)) corrections predicted;
  ms ← np_mean (map (fun r => r ^ 2) residuals);
  rms ← np_sqrt ms;
  Returns {| fit_baseline := baseline_mean;
             fit_baseline_std := baseline_std;
             fit_rms_residual := rms;
             fit_n_bins := length z_effective_values |}.

(** ** utils/corrections.py: tension *)

Definition calculate_tension_sigma (value1 sigma1 value2 sigma2 : R)
    : outcome R :=
  let diff := Rabs (value1 - value2) in
  combined_sigma ← np_sqrt (sigma1 ^ 2 + sigma2 ^ 2);
  np_div diff combined_sigma.

(** ** joint_lambda_cdm_fit.py *)

Definition weighted_mean (values sigmas : list R) : outcome (R * R) :=
  weights ← mapM (fun s => py_div 1 (s ^ 2)) sigmas;
  let total_weight := py_sum weights in
  mean ← py_div (py_sum (map (fun vw : R * R => vw.1 * vw.2)
                             (combine values weights))) total_weight;
  root ← np_sqrt total_weight;
  sigma ← np_div 1 root;
  Returns (mean, sigma).

Definition calculate_chi_squared (measured predicted sigma : R) : outcome R :=
  q ← py_div (measured - predicted) sigma;
  Returns (q ^ 2).

Inductive fit_verdict : Type := CONSISTENT | TENSION.

Record parameter_fit : Type := {
  pf_value : R;
  pf_sigma : R;
  pf_chi2 : R;
  pf_dof : Z;
  pf_verdict : fit_verdict
}.

(** The block joint_fit_lambda_cdm runs for each parameter (H0 at lines
    119-132, S8 at 154-167, Omega_m at 186-199), with the collected probe
    values and uncertainties as arguments. *)
Definition joint_fit_parameter (values sigmas : list R) : outcome parameter_fit :=
  ms ← weighted_mean values sigmas;
  let combined := ms.1 in
  chis ← mapM (fun vs : R * R => calculate_chi_squared vs.1 combined vs.2)
              (combine values sigmas);
  let chi2 := py_sum chis in
  let dof := (Z.of_nat (length values) - 1)%Z in
  ratio ← py_div chi2 (IZR dof);
  Returns {| pf_value := combined;
             pf_sigma := ms.2;
             pf_chi2 := chi2;
             pf_dof := dof;
             pf_verdict := if Rlt_dec ratio 2 then CONSISTENT else TENSION |}.

(** ** utils/corrections.py: cross-survey consistency *)

(** A Python dict with string keys, in insertion order. *)
Fixpoint dict_set {V : Type} (k : string) (v : V) (d : list (string * V))
    : list (string * V) :=
  match d with
  | [] => [(k, v)]
  | (k', v') :: d' =>
      if String.eqb k k' then (k, v) :: d' else (k', v') :: dict_set k v d'
  end.

Inductive consistency_status : Type := EXCELLENT | GOOD | MARGINAL.

Record consistency : Type := {
  cs_baselines : list (string * R);
  cs_mean_baseline : R;
  cs_std_baseline : R;
  cs_max_difference : R;
  cs_consistent : bool;
  cs_status : consistency_status
}.

(** The loop over [survey_results.items()]. *)
Fixpoint collect_baselines (items : list (string * gmap string R))
    (baselines : list (string * R)) : outcome (list (string * R)) :=
  match items with
  | [] => Returns baselines
  | (survey_name, results) :: rest =>
      match results !! "baseline"%string with
      | Some b => collect_baselines rest (dict_set survey_name b baselines)
      | None => Raises ValueError
      end
  end.

(** The "consistency thresholds" block (lines 308-311 and 318): the
    pair of [consistent] and [status]. *)
Definition consistency_thresholds (std_baseline : R)
    : bool * consistency_status :=
  let is_excellent := bool_decide (std_baseline < 3 / 1000) in
  let is_good := bool_decide (std_baseline < 5 / 1000) in
  let status := if is_excellent then EXCELLENT
                else if is_good then GOOD else MARGINAL in
  (is_excellent || is_good, status).

Definition check_cross_survey_consistency
    (survey_results : list (string * gmap string R)) : outcome consistency :=
  baselines ← collect_baselines survey_results [];
  let baseline_values := map snd baselines in
  mean_baseline ← np_mean baseline_values;
  std_baseline ← np_std baseline_values;
  max_diff ← np_max (map (fun b => Rabs (b - mean_baseline)) baseline_values);
  let verdict := consistency_thresholds std_baseline in
  Returns {| cs_baselines := baselines;
             cs_mean_baseline := mean_baseline;
             cs_std_baseline := std_baseline;
             cs_max_difference := max_diff;
             cs_consistent := verdict.1;
             cs_status := verdict.2 |}.

(** ** utils/corrections.py: resolution schedule *)

Record schedule_result : Type := {
  values_by_resolution : list R;
  corrections_by_resolution : list R;
  final_value : R;
  total_correction : R;
  resolution_schedule : list (option Z)
}.

(** The loop body over [resolution_schedule], threading the two lists and
    [current_value]. *)
Fixpoint schedule_loop (correction_per_resolution : gmap Z R)
    (schedule : list Z) (values corrections : list R) (current_value : R)
    : list R * list R * R :=
  match schedule with
  | [] => (values, corrections, current_value)
  | res_bits :: rest =>
      let correction :=
        match correction_per_resolution !! res_bits with
        | Some c => c
        | None => 0
        end in
      let current_value := current_value + correction in
      schedule_loop correction_per_resolution rest
        (values ++ [current_value]) (corrections ++ [correction]) current_value
  end.

Definition apply_resolution_schedule (initial_value : R)
    (schedule : list Z) (correction_per_resolution : gmap Z R)
    : schedule_result :=
  let '(values, corrections, current_value) :=
    schedule_loop correction_per_resolution schedule
      [initial_value] [0] initial_value in
  {| values_by_resolution := values;
     corrections_by_resolution := corrections;
     final_value := current_value;
     total_correction := current_value - initial_value;
     resolution_schedule := None :: map Some schedule |}.

(** ** utils/cosmology.py *)

Definition SPEED_OF_LIGHT_KM_S : R := 299792458 / 1000.

Definition calculate_hubble_distance (h0 : R) : outcome R :=
  py_div SPEED_OF_LIGHT_KM_S h0.

Definition calculate_angular_diameter_distance
    (z h0 omega_m : R) (omega_lambda : option R) : outcome R :=
  let omega_lambda :=
    match omega_lambda with Some ol => ol | None => 1 - omega_m end in
  if Rlt_dec (1 / 100) (Rabs (omega_m + omega_lambda - 1))
  then Raises ValueError
  else
    d_h ← calculate_hubble_distance h0;
    q ← py_div (d_h * z) (1 + z);
    Returns (q * (1 + 5 / 10 * omega_m * z)).

Definition calculate_comoving_distance
    (z h0 omega_m : R) (omega_lambda : option R) : outcome R :=
  d_a ← calculate_angular_diameter_distance z h0 omega_m omega_lambda;
  Returns (d_a * (1 + z)).

Definition calculate_luminosity_distance
    (z h0 omega_m : R) (omega_lambda : option R) : outcome R :=
  d_a ← calculate_angular_diameter_distance z h0 omega_m omega_lambda;
  Returns (d_a * (1 + z) ^ 2).

Definition redshift_to_scale_factor (z : R) : outcome R :=
  py_div 1 (1 + z).

Definition scale_factor_to_redshift (a : R) : outcome R :=
  if bool_decide (a <= 0) || bool_decide (1 < a) then Raises ValueError
  else
    q ← py_div 1 a;
    Returns (q - 1).

(** The check that every required key is present. *)
Fixpoint require_keys (keys : list string) (cosmo : gmap string R)
    : outcome unit :=
  match keys with
  | [] => Returns tt
  | key :: rest =>
      match cosmo !! key with
      | None => Raises ValueError
      | Some _ => require_keys rest cosmo
      end
  end.

Definition validate_cosmology_parameters
    (cosmo : gmap string R) (flat_only : bool) : outcome unit :=
  _ ← require_keys ["h0"; "omega_m"; "omega_lambda"]%string cosmo;
  let h0 := default 0 (cosmo !! "h0"%string) in
  let omega_m := default 0 (cosmo !! "omega_m"%string) in
  let omega_lambda := default 0 (cosmo !! "omega_lambda"%string) in
  if negb (bool_decide (40 < h0) && bool_decide (h0 < 100))
  then Raises ValueError
  else if negb (bool_decide (0 < omega_m) && bool_decide (omega_m < 1))
  then Raises ValueError
  else if negb (bool_decide (0 < omega_lambda) && bool_decide (omega_lambda < 1))
  then Raises ValueError
  else if flat_only then
    let total := omega_m + omega_lambda in
    if bool_decide (1 / 100 < Rabs (total - 1)) then Raises ValueError
    else Returns tt
  else Returns tt.

(** ** The textbook formulas, for the statements *)

(** The inverse variances 1/s_i^2 and the terms v_i/s_i^2. *)
Definition inverse_variances (sigmas : list R) : list R :=
  map (fun s => 1 / s ^ 2) sigmas.

Definition weighted_values (values sigmas : list R) : list R :=
  map (fun p : R * R => p.1 / p.2 ^ 2) (combine values sigmas).

(** The correction a schedule step adds, and the running values of a
    schedule that starts from [current_value]. *)
Definition table_correction (table : gmap Z R) (res_bits : Z) : R :=
  match table !! res_bits with Some c => c | None => 0 end.

Fixpoint running_values (table : gmap Z R) (current_value : R)
    (schedule : list Z) : list R :=
  match schedule with
  | [] => []
  | res_bits :: rest =>
      let next := current_value + table_correction table res_bits in
      next :: running_values table next rest
  end.

(** * Further functions of the same modules *)

(** ** Python numbers in lists *)

(** float + number *)
Definition num_shift (a : R) (n : num) : num :=
  match n with
  | Float x => Float (a + x)
  | Complex re im => Complex (a + re) im
  end.

Definition num_re (n : num) : R :=
  match n with Float x => x | Complex re _ => re end.

Definition num_im (n : num) : R :=
  match n with Float _ => 0 | Complex _ im => im end.

Definition is_float (n : num) : bool :=
  match n with Float _ => true | Complex _ _ => false end.

(** [np.mean] of a list of Python numbers: the array is float64 when all
    are floats and complex128 as soon as one is complex. *)
Definition np_mean_num (l : list num) : outcome num :=
  if forallb is_float l
  then x ← np_mean (map num_re l); Returns (Float x)
  else re ← np_mean (map num_re l);
       im ← np_mean (map num_im l);
       Returns (Complex re im).

(** ** utils/corrections.py: corrections per bin *)

Record bin_corrections : Type := {
  bc_corrections : list num;
  bc_s8_final_per_bin : list num;
  bc_s8_final_mean : num;
  bc_total_correction : num;
  bc_baseline : R
}.

(** The loop over [z_effective_values], threading the two lists. *)
Fixpoint correction_loop (z_effective_values : list R) (s8_initial baseline : R)
    (corrections s8_final_per_bin : list num) : outcome (list num * list num) :=
  match z_effective_values with
  | [] => Returns (corrections, s8_final_per_bin)
  | z_eff :: rest =>
      correction ← calculate_redshift_dependent_correction
                     z_eff baseline REDSHIFT_SCALING_EXPONENT;
      let s8_final := num_shift s8_initial correction in
      correction_loop rest s8_initial baseline
        (corrections ++ [correction]) (s8_final_per_bin ++ [s8_final])
  end.

Definition apply_correction_to_bins
    (z_effective_values : list R) (s8_initial baseline : R)
    : outcome bin_corrections :=
  lists ← correction_loop z_effective_values s8_initial baseline [] [];
  mean_correction ← np_mean_num lists.1;
  mean_s8_final ← np_mean_num lists.2;
  Returns {| bc_corrections := lists.1;
             bc_s8_final_per_bin := lists.2;
             bc_s8_final_mean := mean_s8_final;
             bc_total_correction := mean_correction;
             bc_baseline := baseline |}.

(** ** utils/corrections.py: tension reduction *)

Record tension_reduction : Type := {
  tr_initial_sigma : R;
  tr_final_sigma : R;
  tr_reduction_sigma : R;
  tr_reduction_percent : R;
  tr_converged : bool
}.

Definition evaluate_tension_reduction (tension_initial tension_final : R)
    : tension_reduction :=
  let reduction_sigma := tension_initial - tension_final in
  let reduction_percent :=
    if bool_decide (0 < tension_initial)
    then reduction_sigma / tension_initial * 100
    else 0 in
  {| tr_initial_sigma := tension_initial;
     tr_final_sigma := tension_final;
     tr_reduction_sigma := reduction_sigma;
     tr_reduction_percent := reduction_percent;
     tr_converged := bool_decide (tension_final < 2) |}.

(** ** utils/corrections.py: convergence of a sequence of values *)

(** A float that may be [float('inf')]. *)
Inductive distance : Type :=
  | Finite (d : R)
  | Infinite.

(** The result dict; the early return has no 'initial_distance' key. *)
Record convergence : Type := {
  cv_converges : bool;
  cv_reached_target : bool;
  cv_monotonic : bool;
  cv_final_distance : distance;
  cv_initial_distance : option R
}.

(** [all(distances[i] >= distances[i+1] for i in range(len(distances)-1))] *)
Fixpoint non_increasing (distances : list R) : bool :=
  match distances with
  | d :: (d' :: _) as rest => bool_decide (d' <= d) && non_increasing rest
  | _ => true
  end.

Definition check_monotonic_convergence (values : list R) (target tolerance : R)
    : convergence :=
  if (length values <? 2)%nat then
    {| cv_converges := false;
       cv_reached_target := false;
       cv_monotonic := false;
       cv_final_distance :=
         match last values with
         | Some v => Finite (Rabs (v - target))
         | None => Infinite
         end;
       cv_initial_distance := None |}
  else
    let distances := map (fun v => Rabs (v - target)) values in
    let final_distance := List.last distances 0 in
    let initial_distance := List.hd 0 distances in
    {| cv_converges := bool_decide (final_distance < initial_distance);
       cv_reached_target := bool_decide (final_distance < tolerance);
       cv_monotonic := non_increasing distances;
       cv_final_distance := Finite final_distance;
       cv_initial_distance := Some initial_distance |}.

(** ** utils/validation.py: parameters *)

Definition validate_scale_factor (scale_factor : R) : outcome unit :=
  if negb (bool_decide (0 < scale_factor) && bool_decide (scale_factor <= 1))
  then Raises ParameterValidationError
  else Returns tt.

Definition validate_hubble_constant (h0 : R) : outcome unit :=
  if negb (bool_decide (40 < h0) && bool_decide (h0 < 100))
  then Raises ParameterValidationError
  else Returns tt.

Definition validate_omega_parameter (omega : R) : outcome unit :=
  if negb (bool_decide (0 < omega) && bool_decide (omega < 1))
  then Raises ParameterValidationError
  else Returns tt.

(** The required-keys loop of validate_cosmology_dict. *)
Fixpoint require_parameters (keys : list string) (cosmo : gmap string R)
    : outcome unit :=
  match keys with
  | [] => Returns tt
  | key :: rest =>
      match cosmo !! key with
      | None => Raises ParameterValidationError
      | Some _ => require_parameters rest cosmo
      end
  end.

Definition validate_cosmology_dict (cosmo : gmap string R) (require_flat : bool)
    : outcome unit :=
  _ ← require_parameters ["h0"; "omega_m"; "omega_lambda"]%string cosmo;
  _ ← validate_hubble_constant (default 0 (cosmo !! "h0"%string));
  _ ← validate_omega_parameter (default 0 (cosmo !! "omega_m"%string));
  _ ← validate_omega_parameter (default 0 (cosmo !! "omega_lambda"%string));
  if require_flat then
    let total := default 0 (cosmo !! "omega_m"%string)
                 + default 0 (cosmo !! "omega_lambda"%string) in
    if bool_decide (1 / 100 < Rabs (total - 1))
    then Raises ParameterValidationError
    else Returns tt
  else Returns tt.

Definition validate_convergence_threshold (threshold : R) : outcome unit :=
  if negb (bool_decide (0 < threshold) && bool_decide (threshold < 1))
  then Raises ValidationError
  else if bool_decide (threshold < 1 / 100) then Raises ValidationError
  else if bool_decide (5 / 10 < threshold) then Raises ValidationError
  else Returns tt.

(** The loop of validate_redshift_bins over the (z_min, z_max) tuples;
    validate_redshift is called with its default max_z = 10. *)
Fixpoint validate_bins_loop (z_bins : list (R * R)) : outcome unit :=
  match z_bins with
  | [] => Returns tt
  | (z_min, z_max) :: rest =>
      if bool_decide (z_max <= z_min) then Raises ValidationError
      else
        _ ← validate_redshift z_min 10;
        _ ← validate_redshift z_max 10;
        validate_bins_loop rest
  end.

Definition validate_redshift_bins (z_bins : list (R * R)) : outcome unit :=
  match z_bins with
  | [] => Raises ValidationError
  | _ :: _ => validate_bins_loop z_bins
  end.

(** [sum(v is None for v in values)] *)
Fixpoint none_count {A : Type} (values : list (option A)) : nat :=
  match values with
  | [] => 0
  | None :: rest => S (none_count rest)
  | Some _ :: rest => none_count rest
  end.

Definition validate_all_or_none {A : Type} (values : list (option A))
    : outcome unit :=
  let n := none_count values in
  if negb ((n =? 0)%nat || (n =? length values)%nat)
  then Raises ValidationError
  else Returns tt.

(** ** config/resolution.py and the schedule validators *)

Definition MIN_RESOLUTION_BITS : Z := 8.
Definition MAX_RESOLUTION_BITS : Z := 32.

(** The valid range of a resolution level, for the statements. *)
Definition in_resolution_range (bits : Z) : Prop :=
  (MIN_RESOLUTION_BITS <= bits <= MAX_RESOLUTION_BITS)%Z.

(** [sorted(schedule)] on integers: the sorted rearrangement. *)
Definition sorted (schedule : list Z) : list Z := merge_sort Z.le schedule.

(** The range loop of config/resolution.py's validator. *)
Fixpoint schedule_range_loop (schedule : list Z) : outcome unit :=
  match schedule with
  | [] => Returns tt
  | bits :: rest =>
      if negb (bool_decide (MIN_RESOLUTION_BITS <= bits)%Z
               && bool_decide (bits <= MAX_RESOLUTION_BITS)%Z)
      then Raises ValueError
      else schedule_range_loop rest
  end.

(** config/resolution.py: validate_resolution_schedule. *)
Definition config_validate_resolution_schedule (schedule : list Z) : outcome unit :=
  match schedule with
  | [] => Raises ValueError
  | _ :: _ =>
      _ ← schedule_range_loop schedule;
      if bool_decide (schedule = sorted schedule) then Returns tt
      else Raises ValueError
  end.

(** The two subclasses of ValidationError that utils/validation.py raises
    for coordinates and resolutions; [None] is a validator that returns. *)
Inductive validation_error : Type :=
  | CoordinateValidationError
  | ResolutionValidationError.

(** utils/validation.py: validate_resolution_bits, on an int. *)
Definition validate_resolution_bits (resolution_bits : Z) : option validation_error :=
  if negb (bool_decide (MIN_RESOLUTION_BITS <= resolution_bits)%Z
           && bool_decide (resolution_bits <= MAX_RESOLUTION_BITS)%Z)
  then Some ResolutionValidationError
  else None.

Fixpoint validate_bits_loop (schedule : list Z) : option validation_error :=
  match schedule with
  | [] => None
  | bits :: rest =>
      match validate_resolution_bits bits with
      | Some e => Some e
      | None => validate_bits_loop rest
      end
  end.

(** utils/validation.py: validate_resolution_schedule;
    [len(set(schedule))] is the number of distinct entries. *)
Definition validate_resolution_schedule (schedule : list Z) : option validation_error :=
  match schedule with
  | [] => Some ResolutionValidationError
  | _ :: _ =>
      match validate_bits_loop schedule with
      | Some e => Some e
      | None =>
          if negb (bool_decide (schedule = sorted schedule))
          then Some ResolutionValidationError
          else if negb (length schedule =? length (remove_dups schedule))%nat
          then Some ResolutionValidationError
          else None
      end
  end.

(** ** utils/validation.py: celestial coordinates *)

Definition HORIZON_SIZE_TODAY_MPC : R := 14000.

Definition validate_right_ascension (ra_deg : R) : option validation_error :=
  if negb (bool_decide (0 <= ra_deg) && bool_decide (ra_deg < 360))
  then Some CoordinateValidationError else None.

Definition validate_declination (dec_deg : R) : option validation_error :=
  if negb (bool_decide (-90 <= dec_deg) && bool_decide (dec_deg <= 90))
  then Some CoordinateValidationError else None.

Definition validate_distance (distance_mpc : R) (max_distance : option R)
    : option validation_error :=
  let max_distance :=
    match max_distance with Some m => m | None => HORIZON_SIZE_TODAY_MPC end in
  if bool_decide (distance_mpc <= 0) then Some CoordinateValidationError
  else if bool_decide (max_distance < distance_mpc)
  then Some CoordinateValidationError
  else None.

Definition validate_celestial_coordinates
    (ra_deg dec_deg distance_mpc : R) (max_distance : option R)
    : option validation_error :=
  match validate_right_ascension ra_deg with
  | Some e => Some e
  | None =>
      match validate_declination dec_deg with
      | Some e => Some e
      | None => validate_distance distance_mpc max_distance
      end
  end.

(** ** utils/cosmology.py: scales, coordinates and dictionaries *)

Definition angular_to_comoving_scale (theta_arcmin z_eff h0 omega_m : R)
    : outcome R :=
  let theta_rad := theta_arcmin * PI / 180 / 60 in
  d_a ← calculate_angular_diameter_distance z_eff h0 omega_m None;
  let scale_mpc := theta_rad * d_a * (1 + z_eff) in
  Returns scale_mpc.

Definition comoving_to_angular_scale (scale_mpc z_eff h0 omega_m : R)
    : outcome R :=
  d_a ← calculate_angular_diameter_distance z_eff h0 omega_m None;
  scale_physical ← py_div scale_mpc (1 + z_eff);
  theta_rad ← py_div scale_physical d_a;
  let theta_arcmin := theta_rad * 180 / PI * 60 in
  Returns theta_arcmin.

(** [np.radians] *)
Definition np_radians (deg : R) : R := deg * PI / 180.

Definition radec_distance_to_cartesian (ra_deg dec_deg distance_mpc : R)
    : R * R * R :=
  let ra_rad := np_radians ra_deg in
  let dec_rad := np_radians dec_deg in
  let x := distance_mpc * cos dec_rad * cos ra_rad in
  let y := distance_mpc * cos dec_rad * sin ra_rad in
  let z := distance_mpc * sin dec_rad in
  (x, y, z).

Definition create_cosmo_dict (h0 omega_m : R) (omega_lambda sigma_8 s8 : option R)
    : gmap string R :=
  let omega_lambda :=
    match omega_lambda with Some ol => ol | None => 1 - omega_m end in
  let cosmo : gmap string R :=
    <["omega_lambda"%string := omega_lambda]>
      (<["omega_m"%string := omega_m]> (<["h0"%string := h0]> ∅)) in
  let cosmo :=
    match sigma_8 with
    | Some v => <["sigma_8"%string := v]> cosmo
    | None => cosmo
    end in
  match s8 with
  | Some v => <["s8"%string := v]> cosmo
  | None => cosmo
  end.

(** ** config/resolution.py: cell sizes *)

(** [horizon_mpc / (2 ** resolution_bits)] on an int number of bits. *)
Definition resolution_to_cell_size (resolution_bits : Z) (horizon_mpc : R)
    : outcome R :=
  py_div horizon_mpc (powerRZ 2 resolution_bits).

(** [np.log2]: -inf or nan (with a warning) outside the positive reals. *)
Definition np_log2 (x : R) : outcome R :=
  if Rlt_dec 0 x then Returns (ln x / ln 2) else NonFinite.

(** [int(np.ceil(x))] *)
Definition ceil_int (x : R) : Z := (- Int_part (- x))%Z.

Definition cell_size_to_resolution (cell_size_mpc horizon_mpc : R) : outcome Z :=
  ratio ← py_div horizon_mpc cell_size_mpc;
  n_exact ← np_log2 ratio;
  let n_bits := ceil_int n_exact in
  Returns (Z.max MIN_RESOLUTION_BITS (Z.min MAX_RESOLUTION_BITS n_bits)).

Definition physical_scale_to_resolution (scale_mpc : R) (oversampling : Z)
    : outcome Z :=
  target_cell_size ← py_div scale_mpc (IZR oversampling);
  cell_size_to_resolution target_cell_size 14000.

(** ** config/corrections.py: the second implementation of the model *)

Definition calculate_s8_correction (z baseline : R) : outcome num :=
  z_factor ← calculate_redshift_scaling_factor z REDSHIFT_SCALING_EXPONENT;
  Returns (num_scale baseline z_factor).

Record pattern_fit : Type := {
  pt_baseline : R;
  pt_baseline_std : R;
  pt_exponent : R;
  pt_residuals : list R;
  pt_rms : R;
  pt_n_points : nat
}.

Definition fit_correction_pattern (z_values corrections : list R)
    : outcome pattern_fit :=
  let z_arr := z_values in
  let corr_arr := corrections in
  z_factors ← calculate_redshift_scaling_factor_array
                z_arr REDSHIFT_SCALING_EXPONENT;
  baselines ← np_broadcast np_div corr_arr z_factors;
  baseline_mean ← np_mean baselines;
  baseline_std ← np_std baselines;
  let predicted := map (fun f => baseline_mean * f) z_factors in
  residuals ← np_broadcast (fun c p => Returns (c - p)) corr_arr predicted;
  ms ← np_mean (map (fun r => r ^ 2) residuals);
  rms ← np_sqrt ms;
  Returns {| pt_baseline := baseline_mean;
             pt_baseline_std := baseline_std;
             pt_exponent := REDSHIFT_SCALING_EXPONENT;
             pt_residuals := residuals;
             pt_rms := rms;
             pt_n_points := length z_arr |}.

(** * Facts about the primitives *)

Lemma exponent_nonzero : REDSHIFT_SCALING_EXPONENT <> 0.
Proof. unfold REDSHIFT_SCALING_EXPONENT. lra. Qed.

Lemma Rpower_minus_half (x : R) :
  0 < x -> Rpower x REDSHIFT_SCALING_EXPONENT = / sqrt x.
Proof.
  intros Hx. unfold REDSHIFT_SCALING_EXPONENT.
  replace (5 / 10) with (/ 2) by lra.
  rewrite Rpower_Ropp, Rpower_sqrt by assumption. reflexivity.
Qed.

Lemma py_pow_pos (x y : R) :
  0 < x -> y <> 0 -> py_pow x y = Returns (Float (Rpower x y)).
Proof.
  intros Hx Hy. unfold py_pow.
  destruct (Req_dec_T y 0) as [E|_]; [contradiction|].
  destruct (Rlt_dec 0 x) as [_|N]; [reflexivity|contradiction].
Qed.

Lemma py_pow_zero_neg (y : R) :
  y < 0 -> py_pow 0 y = Raises ZeroDivisionError.
Proof.
  intros Hy. unfold py_pow.
  destruct (Req_dec_T y 0) as [E|_]; [lra|].
  destruct (Rlt_dec 0 0) as [H|_]; [lra|].
  destruct (Req_dec_T 0 0) as [_|N]; [|lra].
  destruct (Rlt_dec y 0) as [_|N]; [reflexivity|contradiction].
Qed.

Lemma correction_value (z A : R) :
  -1 < z -> correction z A = Returns (Float (A / sqrt (1 + z))).
Proof.
  intros Hz. unfold correction, calculate_redshift_dependent_correction.
  rewrite py_pow_pos by (try apply exponent_nonzero; lra).
  simpl. rewrite Rpower_minus_half by lra. reflexivity.
Qed.

Lemma inv_sqrt_decreasing (z1 z2 : R) :
  -1 < z1 -> z1 < z2 -> / sqrt (1 + z2) < / sqrt (1 + z1).
Proof.
  intros H1 H2.
  apply Rinv_lt_contravar.
  - apply Rmult_lt_0_compat; apply sqrt_lt_R0; lra.
  - apply sqrt_lt_1; lra.
Qed.

Ltac decide_R :=
  repeat match goal with
  | |- context [Req_dec_T ?a ?b] => destruct (Req_dec_T a b); try lra
  | |- context [Rlt_dec ?a ?b] => destruct (Rlt_dec a b); try lra
  | |- context [Rle_dec ?a ?b] => destruct (Rle_dec a b); try lra
  | |- context [bool_decide ?P] => destruct (bool_decide_reflect P); try lra
  end.

Lemma bind_Returns {A B : Type} (a : A) (k : A -> outcome B) :
  (Returns a ≫= k) = k a.
Proof. reflexivity. Qed.

Lemma py_div_ok (a b : R) : b <> 0 -> py_div a b = Returns (a / b).
Proof. intros Hb. unfold py_div. destruct (Req_dec_T b 0); [contradiction|reflexivity]. Qed.

Lemma py_div_zero (a : R) : py_div a 0 = Raises ZeroDivisionError.
Proof. unfold py_div. destruct (Req_dec_T 0 0); [reflexivity|contradiction]. Qed.

Lemma np_div_ok (a b : R) : b <> 0 -> np_div a b = Returns (a / b).
Proof. intros Hb. unfold np_div. destruct (Req_dec_T b 0); [contradiction|reflexivity]. Qed.

Lemma np_sqrt_ok (x : R) : 0 <= x -> np_sqrt x = Returns (sqrt x).
Proof. intros Hx. unfold np_sqrt. destruct (Rlt_dec x 0); [lra|reflexivity]. Qed.

Lemma correction_minus_one (A : R) :
  correction (-1) A = Raises ZeroDivisionError.
Proof.
  unfold correction, calculate_redshift_dependent_correction.
  replace (1 + -1) with 0 by lra.
  rewrite py_pow_zero_neg; [reflexivity|].
  unfold REDSHIFT_SCALING_EXPONENT; lra.
Qed.

(** * The correction model *)

(** C1 (as amended): for every z >= 0 and every baseline A the correction
    with the default exponent is A / sqrt(1+z); for a positive baseline it
    is strictly decreasing in z. *)
Theorem correction_formula_decreasing (z z1 z2 A B : R) :
  0 <= z -> 0 <= z1 -> z1 < z2 -> 0 < B ->
  calculate_redshift_scaling_factor z REDSHIFT_SCALING_EXPONENT
    = Returns (Float (/ sqrt (1 + z))) /\
  correction z A = Returns (Float (A / sqrt (1 + z))) /\
  exists c1 c2 : R,
    correction z1 B = Returns (Float c1) /\
    correction z2 B = Returns (Float c2) /\
    c2 < c1.
Proof.
  intros Hz Hz1 Hlt HB. split; [|split].
  - unfold calculate_redshift_scaling_factor.
    rewrite py_pow_pos by (try apply exponent_nonzero; lra).
    rewrite Rpower_minus_half by lra. reflexivity.
  - apply correction_value. lra.
  - exists (B / sqrt (1 + z1)), (B / sqrt (1 + z2)).
    repeat split; try (apply correction_value; lra).
    unfold Rdiv. apply Rmult_lt_compat_l; [assumption|].
    apply inv_sqrt_decreasing; lra.
Qed.

Lemma correction_formula_decreasing_witness :
  calculate_redshift_scaling_factor 0 REDSHIFT_SCALING_EXPONENT
    = Returns (Float (/ sqrt (1 + 0))) /\
  correction 0 (-1) = Returns (Float (-1 / sqrt (1 + 0))) /\
  exists c1 c2 : R,
    correction 0 UNIVERSAL_BASELINE = Returns (Float c1) /\
    correction 1 UNIVERSAL_BASELINE = Returns (Float c2) /\
    c2 < c1.
Proof.
  apply (correction_formula_decreasing 0 0 1 (-1) UNIVERSAL_BASELINE);
    unfold UNIVERSAL_BASELINE; lra.
Defined.

(** C1 as stated fails: with baseline 0 the correction is 0 at every
    redshift, so it is not greater at z = 0 than at z = 1. *)
Lemma correction_not_decreasing_for_zero_baseline :
  exists c1 c2 : R,
    correction 0 0 = Returns (Float c1) /\
    correction 1 0 = Returns (Float c2) /\
    ~ c2 < c1.
Proof.
  exists (0 / sqrt (1 + 0)), (0 / sqrt (1 + 1)).
  repeat split; try (apply correction_value; lra).
  unfold Rdiv. rewrite !Rmult_0_l. lra.
Qed.

(** C4 (as amended): the correction function validates nothing.  For
    every z > -1 it returns A / sqrt(1+z); at z = -1 the float power
    itself raises ZeroDivisionError; the explicit check is the separate
    validate_redshift, which rejects every z < 0 with a
    ParameterValidationError. *)
Theorem correction_unguarded_at_minus_one (z A max_z : R) :
  (-1 < z -> correction z A = Returns (Float (A / sqrt (1 + z)))) /\
  correction (-1) A = Raises ZeroDivisionError /\
  (z < 0 -> validate_redshift z max_z = Raises ParameterValidationError).
Proof.
  split; [apply correction_value|split].
  - apply correction_minus_one.
  - intros Hz. unfold validate_redshift. decide_R. reflexivity.
Qed.

Lemma correction_unguarded_at_minus_one_witness :
  correction (1 / 2) UNIVERSAL_BASELINE
    = Returns (Float (UNIVERSAL_BASELINE / sqrt (1 + 1 / 2))) /\
  validate_redshift (-1) 10 = Raises ParameterValidationError.
Proof.
  split.
  - apply (proj1 (correction_unguarded_at_minus_one (1 / 2) UNIVERSAL_BASELINE 10)).
    lra.
  - apply (proj2 (proj2 (correction_unguarded_at_minus_one (-1) UNIVERSAL_BASELINE 10))).
    lra.
Defined.

(** C4 as stated fails: at z = -1 the call ends in the interpreter's
    ZeroDivisionError, not in a validation error. *)
Lemma correction_minus_one_is_zero_division :
  correction (-1) UNIVERSAL_BASELINE = Raises ZeroDivisionError /\
  correction (-1) UNIVERSAL_BASELINE <> Raises ValidationError /\
  correction (-1) UNIVERSAL_BASELINE <> Raises ParameterValidationError.
Proof.
  rewrite correction_minus_one. repeat split; discriminate.
Qed.

(** * Scale factor and redshift *)

Lemma scale_factor_to_redshift_in_range (a : R) :
  0 < a <= 1 -> scale_factor_to_redshift a = Returns (1 / a - 1).
Proof.
  intros [Ha1 Ha2]. unfold scale_factor_to_redshift. decide_R. simpl.
  rewrite py_div_ok by lra. reflexivity.
Qed.

Lemma scale_factor_to_redshift_out_of_range (a : R) :
  a <= 0 \/ 1 < a -> scale_factor_to_redshift a = Raises ValueError.
Proof.
  intros Ha. unfold scale_factor_to_redshift.
  destruct (bool_decide_reflect (a <= 0)); [reflexivity|].
  destruct (bool_decide_reflect (1 < a)); [reflexivity|].
  destruct Ha; contradiction.
Qed.

(** C10: scale_factor_to_redshift raises ValueError exactly when a <= 0 or
    a > 1 (and returns 1/a - 1 otherwise); for every z >= 0 the scale
    factor 1/(1+z) lies in (0, 1] and converting it back gives z. *)
Theorem scale_factor_redshift_roundtrip (a z : R) :
  0 <= z ->
  (scale_factor_to_redshift a = Raises ValueError <-> a <= 0 \/ 1 < a) /\
  (is_raises (scale_factor_to_redshift a) = true <-> a <= 0 \/ 1 < a) /\
  exists s : R,
    redshift_to_scale_factor z = Returns s /\
    s = 1 / (1 + z) /\
    0 < s <= 1 /\
    scale_factor_to_redshift s = Returns z.
Proof.
  intros Hz.
  assert (Hcases : (a <= 0 \/ 1 < a) \/ 0 < a <= 1) by lra.
  split; [|split].
  - split; [|apply scale_factor_to_redshift_out_of_range].
    intros E. destruct Hcases as [H|H]; [assumption|].
    rewrite scale_factor_to_redshift_in_range in E by assumption. discriminate.
  - split.
    + intros E. destruct Hcases as [H|H]; [assumption|].
      rewrite scale_factor_to_redshift_in_range in E by assumption. discriminate.
    + intros H. rewrite scale_factor_to_redshift_out_of_range by assumption.
      reflexivity.
  - exists (1 / (1 + z)).
    assert (Hpos : 0 < 1 / (1 + z)).
    { apply Rdiv_lt_0_compat; lra. }
    assert (Hle : 1 / (1 + z) <= 1).
    { apply Rmult_le_reg_r with (1 + z); [lra|].
      unfold Rdiv. rewrite Rmult_assoc, Rinv_l by lra. lra. }
    repeat split; try assumption.
    + unfold redshift_to_scale_factor. apply py_div_ok. lra.
    + rewrite scale_factor_to_redshift_in_range by (split; assumption).
      f_equal. field. lra.
Qed.

Lemma scale_factor_redshift_roundtrip_witness :
  exists s : R,
    redshift_to_scale_factor 1 = Returns s /\
    s = 1 / (1 + 1) /\
    0 < s <= 1 /\
    scale_factor_to_redshift s = Returns 1.
Proof.
  apply (scale_factor_redshift_roundtrip 2 1). lra.
Defined.

(** * Cosmology distances and their validation *)

Lemma angular_diameter_distance_flat (z h0 omega_m : R) (omega_lambda : option R) :
  h0 <> 0 -> z <> -1 ->
  Rabs (omega_m + default (1 - omega_m) omega_lambda - 1) <= 1 / 100 ->
  calculate_angular_diameter_distance z h0 omega_m omega_lambda
  = Returns (SPEED_OF_LIGHT_KM_S / h0 * z / (1 + z) * (1 + 5 / 10 * omega_m * z)).
Proof.
  intros Hh Hz Hflat. unfold calculate_angular_diameter_distance.
  change (match omega_lambda with Some ol => ol | None => 1 - omega_m end)
    with (default (1 - omega_m) omega_lambda).
  destruct (Rlt_dec _ _) as [H|_]; [lra|].
  unfold calculate_hubble_distance. rewrite py_div_ok by assumption. simpl.
  rewrite py_div_ok by lra. reflexivity.
Qed.

Lemma angular_diameter_distance_not_flat (z h0 omega_m : R) (omega_lambda : option R) :
  1 / 100 < Rabs (omega_m + default (1 - omega_m) omega_lambda - 1) ->
  calculate_angular_diameter_distance z h0 omega_m omega_lambda = Raises ValueError.
Proof.
  intros Hflat. unfold calculate_angular_diameter_distance.
  change (match omega_lambda with Some ol => ol | None => 1 - omega_m end)
    with (default (1 - omega_m) omega_lambda).
  destruct (Rlt_dec _ _) as [_|H]; [reflexivity|contradiction].
Qed.

Lemma default_omega_lambda_is_flat (omega_m : R) :
  Rabs (omega_m + default (1 - omega_m) None - 1) <= 1 / 100.
Proof.
  simpl. replace (omega_m + (1 - omega_m) - 1) with 0 by lra.
  rewrite Rabs_R0. lra.
Qed.

Lemma validate_cosmology_parameters_accepts (cosmo : gmap string R) (flat_only : bool) :
  validate_cosmology_parameters cosmo flat_only = Returns tt <->
  exists h0 omega_m omega_lambda : R,
    cosmo !! "h0"%string = Some h0 /\
    cosmo !! "omega_m"%string = Some omega_m /\
    cosmo !! "omega_lambda"%string = Some omega_lambda /\
    40 < h0 < 100 /\ 0 < omega_m < 1 /\ 0 < omega_lambda < 1 /\
    (flat_only = true -> Rabs (omega_m + omega_lambda - 1) <= 1 / 100).
Proof.
  unfold validate_cosmology_parameters, require_keys.
  destruct (cosmo !! "h0"%string) as [h0|] eqn:Eh; simpl.
  2:{ split; [discriminate|]. intros (?&?&?&?&_). discriminate. }
  destruct (cosmo !! "omega_m"%string) as [om|] eqn:Em; simpl.
  2:{ split; [discriminate|]. intros (?&?&?&?&?&_). discriminate. }
  destruct (cosmo !! "omega_lambda"%string) as [ol|] eqn:El; simpl.
  2:{ split; [discriminate|]. intros (?&?&?&?&?&?&_). discriminate. }
  split.
  - intros E. exists h0, om, ol.
    repeat match type of E with
    | context [bool_decide ?P] => destruct (bool_decide_reflect P); simpl in E
    end; try discriminate;
    destruct flat_only; simpl in E; try discriminate;
    repeat match type of E with
    | context [bool_decide ?P] => destruct (bool_decide_reflect P); simpl in E
    end; try discriminate;
    repeat split; try assumption; try reflexivity; intros; try discriminate; lra.
  - intros (h0'&om'&ol'&E1&E2&E3&Hh&Hm&Hl&Hflat).
    injection E1 as <-. injection E2 as <-. injection E3 as <-.
    destruct flat_only; [specialize (Hflat eq_refl)|]; decide_R; reflexivity.
Qed.

Lemma validate_cosmology_parameters_total (cosmo : gmap string R) (flat_only : bool) :
  validate_cosmology_parameters cosmo flat_only = Returns tt \/
  validate_cosmology_parameters cosmo flat_only = Raises ValueError.
Proof.
  unfold validate_cosmology_parameters, require_keys.
  repeat (destruct (cosmo !! _); simpl; [|right; reflexivity]).
  repeat match goal with
  | |- context [bool_decide ?P] => destruct (bool_decide P); simpl
  end; try (right; reflexivity).
  all: destruct flat_only; try (left; reflexivity).
  all: repeat match goal with
  | |- context [bool_decide ?P] => destruct (bool_decide P); simpl
  end; (left; reflexivity) || (right; reflexivity).
Qed.

(** C6 (as amended): the validator validate_cosmology_parameters accepts
    exactly the dictionaries with 40 < H0 < 100, 0 < Omega_m < 1,
    0 < Omega_lambda < 1 and |Omega_m + Omega_lambda - 1| <= 0.01, and
    raises ValueError on every other one; the distance computations check
    only the flat-universe constraint (Omega_lambda defaults to
    1 - Omega_m) and raise ValueError exactly when it fails, so with
    Omega_lambda omitted they return the approximation for every
    Omega_m. *)
Theorem cosmology_validation_split
    (cosmo : gmap string R) (z h0 omega_m : R) (omega_lambda : option R) :
  h0 <> 0 -> z <> -1 ->
  (validate_cosmology_parameters cosmo true = Returns tt <->
     exists h o l : R,
       cosmo !! "h0"%string = Some h /\
       cosmo !! "omega_m"%string = Some o /\
       cosmo !! "omega_lambda"%string = Some l /\
       40 < h < 100 /\ 0 < o < 1 /\ 0 < l < 1 /\
       Rabs (o + l - 1) <= 1 / 100) /\
  (validate_cosmology_parameters cosmo true <> Returns tt ->
     validate_cosmology_parameters cosmo true = Raises ValueError) /\
  (calculate_angular_diameter_distance z h0 omega_m omega_lambda = Raises ValueError
     <-> 1 / 100 < Rabs (omega_m + default (1 - omega_m) omega_lambda - 1)) /\
  (Rabs (omega_m + default (1 - omega_m) omega_lambda - 1) <= 1 / 100 ->
     calculate_angular_diameter_distance z h0 omega_m omega_lambda
     = Returns (SPEED_OF_LIGHT_KM_S / h0 * z / (1 + z)
                * (1 + 5 / 10 * omega_m * z))) /\
  calculate_angular_diameter_distance z h0 omega_m None
  = Returns (SPEED_OF_LIGHT_KM_S / h0 * z / (1 + z) * (1 + 5 / 10 * omega_m * z)) /\
  calculate_comoving_distance z h0 omega_m None
  = Returns (SPEED_OF_LIGHT_KM_S / h0 * z / (1 + z) * (1 + 5 / 10 * omega_m * z)
             * (1 + z)) /\
  calculate_luminosity_distance z h0 omega_m None
  = Returns (SPEED_OF_LIGHT_KM_S / h0 * z / (1 + z) * (1 + 5 / 10 * omega_m * z)
             * (1 + z) ^ 2).
Proof.
  intros Hh Hz. repeat apply conj.
  - intros E. apply validate_cosmology_parameters_accepts in E.
    destruct E as (h&o&l&?&?&?&?&?&?&Hf). exists h, o, l.
    repeat split; tauto.
  - intros (h&o&l&?&?&?&?&?&?&Hf).
    apply validate_cosmology_parameters_accepts. exists h, o, l.
    repeat split; tauto.
  - intros N. destruct (validate_cosmology_parameters_total cosmo true); tauto.
  - intros E.
    destruct (Rlt_dec (1 / 100)
                (Rabs (omega_m + default (1 - omega_m) omega_lambda - 1)))
      as [H|H]; [assumption|].
    rewrite angular_diameter_distance_flat in E by (try assumption; lra).
    discriminate.
  - apply angular_diameter_distance_not_flat.
  - apply angular_diameter_distance_flat; assumption.
  - apply angular_diameter_distance_flat; try assumption.
    apply default_omega_lambda_is_flat.
  - unfold calculate_comoving_distance.
    rewrite angular_diameter_distance_flat, bind_Returns
      by (try assumption; apply default_omega_lambda_is_flat).
    reflexivity.
  - unfold calculate_luminosity_distance.
    rewrite angular_diameter_distance_flat, bind_Returns
      by (try assumption; apply default_omega_lambda_is_flat).
    reflexivity.
Qed.

Lemma cosmology_validation_split_witness :
  calculate_angular_diameter_distance 1 70 (315 / 1000) None
  = Returns (SPEED_OF_LIGHT_KM_S / 70 * 1 / (1 + 1)
             * (1 + 5 / 10 * (315 / 1000) * 1)).
Proof.
  pose proof (cosmology_validation_split ∅ 1 70 (315 / 1000) None) as H.
  destruct H as (_ & _ & _ & _ & H & _); [lra|lra|exact H].
Defined.

(** C6 as stated fails: with Omega_m = 1.2 and Omega_lambda left to its
    default the angular-diameter distance is computed, no error is
    raised. *)
Lemma angular_diameter_distance_accepts_omega_m_1_2 :
  calculate_angular_diameter_distance 1 70 (12 / 10) None
  = Returns (SPEED_OF_LIGHT_KM_S / 70 * 1 / (1 + 1)
             * (1 + 5 / 10 * (12 / 10) * 1)).
Proof.
  apply angular_diameter_distance_flat; try lra.
  apply default_omega_lambda_is_flat.
Qed.

(** The validator, called on its own, rejects Omega_m = 1.2. *)
Lemma validator_rejects_omega_m_1_2 :
  validate_cosmology_parameters
    (<["h0"%string := 70]> (<["omega_m"%string := 12 / 10]>
       (<["omega_lambda"%string := - (2 / 10)]> ∅))) true
  = Raises ValueError.
Proof.
  match goal with |- ?call = _ => destruct
    (validate_cosmology_parameters_total
       (<["h0"%string := 70]> (<["omega_m"%string := 12 / 10]>
          (<["omega_lambda"%string := - (2 / 10)]> ∅))) true) as [E|E]
  end; [|exact E].
  apply validate_cosmology_parameters_accepts in E.
  destruct E as (h & o & l & _ & Eo & _ & _ & Ho & _).
  assert (L : (<["h0"%string := 70]> (<["omega_m"%string := 12 / 10]>
                 (<["omega_lambda"%string := - (2 / 10)]> ∅)) : gmap string R)
              !! "omega_m"%string = Some (12 / 10)) by reflexivity.
  rewrite L in Eo. injection Eo as <-. lra.
Qed.

(** * Sums and elementwise maps *)

Lemma fold_left_Rplus (l : list R) (a : R) :
  fold_left Rplus l a = a + Rsum l.
Proof.
  revert a. induction l as [|x l IH]; intros a; simpl.
  - lra.
  - rewrite IH. lra.
Qed.

Lemma py_sum_Rsum (l : list R) : py_sum l = Rsum l.
Proof. unfold py_sum. rewrite fold_left_Rplus. lra. Qed.

Lemma Rsum_app (l1 l2 : list R) : Rsum (l1 ++ l2) = Rsum l1 + Rsum l2.
Proof. induction l1 as [|x l IH]; simpl; [lra|rewrite IH; lra]. Qed.

Lemma Rsum_repeat (x : R) (n : nat) : Rsum (repeat x n) = INR n * x.
Proof.
  induction n as [|n IH].
  - simpl. lra.
  - rewrite S_INR. simpl. rewrite IH. lra.
Qed.

Lemma Rsum_pos (l : list R) :
  l <> [] -> Forall (fun x => 0 < x) l -> 0 < Rsum l.
Proof.
  intros Hne Hall. destruct l as [|x l]; [contradiction|].
  inversion Hall as [|? ? Hx Hl]; subst. clear Hne Hall. simpl.
  assert (0 <= Rsum l); [|lra].
  induction Hl as [|y l Hy _ IH]; simpl; lra.
Qed.

Lemma Rsum_zero (l : list R) : Forall (fun x => x = 0) l -> Rsum l = 0.
Proof. induction 1 as [|x l Hx _ IH]; simpl; [reflexivity|lra]. Qed.

Lemma mapM_returns {A B : Type} (f : A -> outcome B) (g : A -> B) (l : list A) :
  Forall (fun x => f x = Returns (g x)) l ->
  mapM f l = Returns (map g l).
Proof.
  induction 1 as [|x l Hx _ IH]; [reflexivity|].
  cbn. rewrite Hx, IH. reflexivity.
Qed.

Lemma mapM_raises {A B : Type} (f : A -> outcome B) (g : A -> B) (e : exn)
    (l1 l2 : list A) (x : A) :
  Forall (fun y => f y = Returns (g y)) l1 ->
  f x = Raises e ->
  mapM f (l1 ++ x :: l2) = Raises e.
Proof.
  intros Hl Hx. induction Hl as [|y l Hy _ IH]; cbn.
  - rewrite Hx. reflexivity.
  - rewrite Hy. cbn in IH. rewrite IH. reflexivity.
Qed.

Lemma combine_map_r {A B C : Type} (g : B -> C) (l : list A) (l' : list B) :
  combine l (map g l') = map (fun p : A * B => (p.1, g p.2)) (combine l l').
Proof.
  revert l'. induction l as [|x l IH]; intros [|y l']; simpl; try reflexivity.
  rewrite IH. reflexivity.
Qed.

Lemma combine_repeat {A B : Type} (x : A) (y : B) (n : nat) :
  combine (repeat x n) (repeat y n) = repeat (x, y) n.
Proof. induction n as [|n IH]; simpl; [reflexivity|rewrite IH; reflexivity]. Qed.

Lemma map_repeat {A B : Type} (f : A -> B) (x : A) (n : nat) :
  map f (repeat x n) = repeat (f x) n.
Proof. induction n as [|n IH]; simpl; [reflexivity|rewrite IH; reflexivity]. Qed.

(** * Tension statistics *)

Lemma tension_value (v1 s1 v2 s2 : R) :
  s1 <> 0 \/ s2 <> 0 ->
  calculate_tension_sigma v1 s1 v2 s2
  = Returns (Rabs (v1 - v2) / sqrt (s1 ^ 2 + s2 ^ 2)).
Proof.
  intros Hs. unfold calculate_tension_sigma.
  assert (Hpos : 0 < s1 ^ 2 + s2 ^ 2) by (destruct Hs; nra).
  rewrite np_sqrt_ok by lra. cbn.
  apply np_div_ok. apply Rgt_not_eq. apply sqrt_lt_R0. exact Hpos.
Qed.

Lemma inverse_variances_pos (sigmas : list R) :
  Forall (fun s => s <> 0) sigmas ->
  Forall (fun w => 0 < w) (inverse_variances sigmas).
Proof.
  unfold inverse_variances. induction 1 as [|s l Hs _ IH]; simpl; constructor.
  - apply Rdiv_lt_0_compat; [lra|nra].
  - exact IH.
Qed.

Lemma weighted_mean_value (values sigmas : list R) :
  sigmas <> [] ->
  Forall (fun s => s <> 0) sigmas ->
  weighted_mean values sigmas
  = Returns (Rsum (weighted_values values sigmas) / Rsum (inverse_variances sigmas),
             1 / sqrt (Rsum (inverse_variances sigmas))).
Proof.
  intros Hne Hall. unfold weighted_mean.
  rewrite (mapM_returns _ (fun s => 1 / s ^ 2)).
  2:{ eapply Forall_impl; [exact Hall|]. intros s Hs. cbn beta.
      apply py_div_ok. nra. }
  rewrite bind_Returns. fold (inverse_variances sigmas). rewrite !py_sum_Rsum.
  assert (Hpos : 0 < Rsum (inverse_variances sigmas)).
  { apply Rsum_pos; [|apply inverse_variances_pos; exact Hall].
    unfold inverse_variances. destruct sigmas; [contradiction|discriminate]. }
  rewrite py_div_ok, bind_Returns by lra.
  rewrite np_sqrt_ok, bind_Returns by lra.
  rewrite np_div_ok, bind_Returns
    by (apply Rgt_not_eq, sqrt_lt_R0; exact Hpos).
  do 3 f_equal. unfold inverse_variances, weighted_values.
  rewrite combine_map_r, map_map. f_equal. apply map_ext.
  intros [v s]. unfold Rdiv. simpl. ring.
Qed.

Lemma tension_self (v s : R) :
  s <> 0 -> calculate_tension_sigma v s v s = Returns 0.
Proof.
  intros Hs. rewrite tension_value by (left; exact Hs). f_equal.
  replace (v - v) with 0 by lra. rewrite Rabs_R0. unfold Rdiv. ring.
Qed.

Lemma sqrt_inverse_square (s : R) : 0 < s -> sqrt (1 / s ^ 2) = 1 / s.
Proof.
  intros Hs. replace (1 / s ^ 2) with ((1 / s) * (1 / s)) by (field; lra).
  apply sqrt_square. apply Rlt_le, Rdiv_lt_0_compat; lra.
Qed.

Lemma equal_sigma_sum (s : R) (n : nat) :
  Rsum (inverse_variances (repeat s n)) = INR n * (1 / s ^ 2).
Proof. unfold inverse_variances. rewrite map_repeat. apply Rsum_repeat. Qed.

Lemma equal_sigma_combined (s : R) (n : nat) :
  0 < s -> (1 <= n)%nat ->
  1 / sqrt (Rsum (inverse_variances (repeat s n))) = s / sqrt (INR n).
Proof.
  intros Hs Hn. rewrite equal_sigma_sum.
  assert (Hpos : 0 < INR n) by (apply lt_0_INR; lia).
  rewrite sqrt_mult by (try apply Rlt_le, Rdiv_lt_0_compat; nra).
  rewrite sqrt_inverse_square by assumption.
  field. split; [|lra]. apply Rgt_not_eq, sqrt_lt_R0. exact Hpos.
Qed.

Lemma Forall_pos_nonzero (l : list R) :
  Forall (fun x => 0 < x) l -> Forall (fun x => x <> 0) l.
Proof. intros H. eapply Forall_impl; [exact H|]. intros x Hx. cbn beta. lra. Qed.

Lemma Forall_repeat_pos (s : R) (n : nat) :
  0 < s -> Forall (fun x => 0 < x) (repeat s n).
Proof. intros Hs. induction n; simpl; constructor; assumption. Qed.

Lemma repeat_nonempty {A : Type} (x : A) (n : nat) :
  (1 <= n)%nat -> repeat x n <> [].
Proof. destruct n; [lia|discriminate]. Qed.

Lemma weighted_mean_identical (v s : R) (n : nat) :
  0 < s -> (1 <= n)%nat ->
  weighted_mean (repeat v n) (repeat s n) = Returns (v, s / sqrt (INR n)).
Proof.
  intros Hs Hn.
  rewrite weighted_mean_value
    by (try apply repeat_nonempty; try apply Forall_pos_nonzero, Forall_repeat_pos;
        assumption).
  rewrite equal_sigma_combined by assumption. do 2 f_equal.
  rewrite equal_sigma_sum. unfold weighted_values.
  rewrite combine_repeat, map_repeat, Rsum_repeat. simpl.
  assert (Hpos : 0 < INR n) by (apply lt_0_INR; lia).
  field. lra.
Qed.

(** C2: for uncertainties s_i > 0 the pairwise tension is
    |v1 - v2| / sqrt(s1^2 + s2^2), and 0 for equal measurements; the
    weighted mean of N >= 1 measurements is
    Sum(v_i/s_i^2) / Sum(1/s_i^2) with sigma 1 / sqrt(Sum(1/s_i^2)); N
    identical values with identical uncertainties combine to that value,
    and N equal uncertainties s combine to s / sqrt(N). *)
Theorem tension_and_weighted_mean_formulas
    (v1 s1 v2 s2 v s : R) (values sigmas : list R) (n : nat) :
  0 < s1 -> 0 < s2 -> 0 < s -> (1 <= n)%nat ->
  values <> [] -> length values = length sigmas ->
  Forall (fun x => 0 < x) sigmas ->
  calculate_tension_sigma v1 s1 v2 s2
    = Returns (Rabs (v1 - v2) / sqrt (s1 ^ 2 + s2 ^ 2)) /\
  calculate_tension_sigma v1 s1 v1 s1 = Returns 0 /\
  weighted_mean values sigmas
    = Returns (Rsum (weighted_values values sigmas)
                 / Rsum (inverse_variances sigmas),
               1 / sqrt (Rsum (inverse_variances sigmas))) /\
  weighted_mean (repeat v n) (repeat s n) = Returns (v, s / sqrt (INR n)) /\
  exists m : R,
    weighted_mean values (repeat s (length values))
    = Returns (m, s / sqrt (INR (length values))).
Proof.
  intros Hs1 Hs2 Hs Hn Hne Hlen Hall.
  assert (Hlen1 : (1 <= length values)%nat).
  { destruct values; [contradiction|simpl; lia]. }
  repeat apply conj.
  - apply tension_value. left. lra.
  - apply tension_self. lra.
  - apply weighted_mean_value; [|apply Forall_pos_nonzero; exact Hall].
    intros ->. simpl in Hlen. lia.
  - apply weighted_mean_identical; assumption.
  - eexists.
    rewrite weighted_mean_value
      by (try apply repeat_nonempty; try apply Forall_pos_nonzero, Forall_repeat_pos;
          assumption).
    rewrite equal_sigma_combined by assumption. reflexivity.
Qed.

Lemma tension_and_weighted_mean_formulas_witness :
  calculate_tension_sigma (776 / 1000) (17 / 1000) (834 / 1000) (16 / 1000)
    = Returns (Rabs (776 / 1000 - 834 / 1000)
                 / sqrt ((17 / 1000) ^ 2 + (16 / 1000) ^ 2)) /\
  weighted_mean (repeat (3 / 4) 3) (repeat (1 / 10) 3)
    = Returns (3 / 4, 1 / 10 / sqrt (INR 3)).
Proof.
  pose proof (tension_and_weighted_mean_formulas
                (776 / 1000) (17 / 1000) (834 / 1000) (16 / 1000)
                (3 / 4) (1 / 10) [1; 2] [1; 1] 3) as H.
  destruct H as (H1 & _ & _ & H4 & _);
    try lra; try lia; try discriminate; try reflexivity.
  - repeat constructor; lra.
  - split; assumption.
Defined.

(** C5 (as amended): neither calculate_tension_sigma nor weighted_mean
    checks the sign of an uncertainty.  Whenever the uncertainties are
    non-zero (negative ones included) both return the value of their
    formula; a zero uncertainty makes weighted_mean raise
    ZeroDivisionError and two zero uncertainties make the numpy division
    of calculate_tension_sigma non-finite.  The explicit check is the
    separate validate_measurement_uncertainty, which raises
    ValidationError for every sigma <= 0. *)
Theorem tension_statistics_do_not_validate
    (v1 s1 v2 s2 value sigma : R) (values sigmas before after : list R) :
  (s1 <> 0 \/ s2 <> 0 ->
     calculate_tension_sigma v1 s1 v2 s2
     = Returns (Rabs (v1 - v2) / sqrt (s1 ^ 2 + s2 ^ 2))) /\
  calculate_tension_sigma v1 0 v2 0 = NonFinite /\
  (sigmas <> [] -> Forall (fun x => x <> 0) sigmas ->
     weighted_mean values sigmas
     = Returns (Rsum (weighted_values values sigmas)
                  / Rsum (inverse_variances sigmas),
                1 / sqrt (Rsum (inverse_variances sigmas)))) /\
  (Forall (fun x => x <> 0) before ->
     weighted_mean values (before ++ 0 :: after) = Raises ZeroDivisionError) /\
  (sigma <= 0 ->
     validate_measurement_uncertainty value sigma = Raises ValidationError).
Proof.
  repeat apply conj.
  - apply tension_value.
  - unfold calculate_tension_sigma.
    replace (0 ^ 2 + 0 ^ 2) with 0 by (simpl; lra).
    rewrite np_sqrt_ok, bind_Returns, sqrt_0 by lra.
    unfold np_div. destruct (Req_dec_T 0 0); [reflexivity|contradiction].
  - apply weighted_mean_value.
  - intros Hb. unfold weighted_mean.
    rewrite (mapM_raises _ (fun s => 1 / s ^ 2) ZeroDivisionError).
    + reflexivity.
    + eapply Forall_impl; [exact Hb|]. intros x Hx. cbn beta.
      apply py_div_ok. nra.
    + replace (0 ^ 2) with 0 by (simpl; lra). apply py_div_zero.
  - intros Hs. unfold validate_measurement_uncertainty.
    destruct (Rle_dec sigma 0); [reflexivity|contradiction].
Qed.

Lemma tension_statistics_do_not_validate_witness :
  calculate_tension_sigma 1 (-1) 2 0
    = Returns (Rabs (1 - 2) / sqrt ((-1) ^ 2 + 0 ^ 2)) /\
  weighted_mean [1; 2] [1; 0] = Raises ZeroDivisionError /\
  validate_measurement_uncertainty 1 (-1) = Raises ValidationError.
Proof.
  pose proof (tension_statistics_do_not_validate
                1 (-1) 2 0 1 (-1) [1; 2] [1] [1] []) as (H1 & _ & _ & H4 & H5).
  repeat apply conj.
  - apply H1. left. lra.
  - apply H4. repeat constructor. lra.
  - apply H5. lra.
Defined.

(** C5 as stated fails: with the non-positive uncertainties -1 and 0 the
    tension is the number 1, and with the uncertainty -1 the weighted
    mean is the pair (1, 1); no error is raised. *)
Lemma negative_sigma_is_accepted :
  calculate_tension_sigma 1 (-1) 2 0 = Returns 1 /\
  weighted_mean [1] [-1] = Returns (1, 1).
Proof.
  split.
  - rewrite tension_value by (left; lra). f_equal.
    replace ((-1) ^ 2 + 0 ^ 2) with 1 by (simpl; lra).
    replace (1 - 2) with (- (1)) by lra.
    rewrite sqrt_1, Rabs_Ropp, Rabs_R1. lra.
  - rewrite weighted_mean_value; [|discriminate|repeat constructor; lra].
    unfold weighted_values, inverse_variances. simpl.
    replace (1 / (-1 * (-1 * 1)) + 0) with 1 by (field; lra).
    rewrite sqrt_1. do 2 f_equal; lra.
Qed.

(** * The per-parameter consistency check *)

Lemma chi_squared_value (measured predicted sigma : R) :
  sigma <> 0 ->
  calculate_chi_squared measured predicted sigma
  = Returns (((measured - predicted) / sigma) ^ 2).
Proof.
  intros Hs. unfold calculate_chi_squared.
  rewrite py_div_ok, bind_Returns by assumption. reflexivity.
Qed.

Lemma Forall_combine_snd {A B : Type} (P : B -> Prop) (l : list A) (l' : list B) :
  Forall P l' -> Forall (fun p : A * B => P p.2) (combine l l').
Proof.
  intros H. revert l. induction H as [|y l' Hy _ IH]; intros [|x l]; simpl;
    constructor; auto.
Qed.

Lemma weighted_mean_single (v s : R) :
  0 < s -> weighted_mean [v] [s] = Returns (v, s).
Proof.
  intros Hs. pose proof (weighted_mean_identical v s 1 Hs (le_n 1)) as H.
  simpl in H. rewrite H. rewrite sqrt_1. do 2 f_equal. lra.
Qed.

Lemma joint_fit_parameter_general (values sigmas : list R) :
  sigmas <> [] -> Forall (fun x => x <> 0) sigmas ->
  let combined := Rsum (weighted_values values sigmas)
                  / Rsum (inverse_variances sigmas) in
  let chi2 := Rsum (map (fun vs : R * R => ((vs.1 - combined) / vs.2) ^ 2)
                        (combine values sigmas)) in
  let dof := (Z.of_nat (length values) - 1)%Z in
  joint_fit_parameter values sigmas
  = ratio ← py_div chi2 (IZR dof);
    Returns {| pf_value := combined;
               pf_sigma := 1 / sqrt (Rsum (inverse_variances sigmas));
               pf_chi2 := chi2;
               pf_dof := dof;
               pf_verdict := if Rlt_dec ratio 2 then CONSISTENT else TENSION |}.
Proof.
  intros Hne Hall combined chi2 dof. unfold joint_fit_parameter.
  rewrite weighted_mean_value, bind_Returns by assumption.
  rewrite (mapM_returns _
             (fun vs : R * R => ((vs.1 - combined) / vs.2) ^ 2)).
  2:{ eapply Forall_impl;
        [apply (Forall_combine_snd (fun s => s <> 0)); exact Hall|].
      intros [v s] Hs. apply chi_squared_value. exact Hs. }
  rewrite bind_Returns, py_sum_Rsum. reflexivity.
Qed.

Lemma joint_fit_parameter_single (v s : R) :
  s <> 0 -> joint_fit_parameter [v] [s] = Raises ZeroDivisionError.
Proof.
  intros Hs.
  rewrite joint_fit_parameter_general; [|discriminate|repeat constructor; exact Hs].
  change (IZR (Z.of_nat (length [v]) - 1)) with 0.
  rewrite py_div_zero. reflexivity.
Qed.

(** C8 (as amended): for a single measurement with s > 0 the weighted
    combination returns that measurement with its own uncertainty, and
    its chi-squared against the combined value and its tension with
    itself are 0.  The consistency check divides chi2 by dof = N - 1 with
    no guard: for N >= 2 measurements it returns a result with that dof,
    and with one measurement the division raises ZeroDivisionError. *)
Theorem single_measurement_statistics (v s : R) (values sigmas : list R) :
  0 < s ->
  (2 <= length values)%nat -> length values = length sigmas ->
  Forall (fun x => 0 < x) sigmas ->
  weighted_mean [v] [s] = Returns (v, s) /\
  calculate_chi_squared v v s = Returns 0 /\
  calculate_tension_sigma v s v s = Returns 0 /\
  joint_fit_parameter [v] [s] = Raises ZeroDivisionError /\
  exists r : parameter_fit,
    joint_fit_parameter values sigmas = Returns r /\
    pf_dof r = (Z.of_nat (length values) - 1)%Z /\
    pf_value r = Rsum (weighted_values values sigmas)
                 / Rsum (inverse_variances sigmas).
Proof.
  intros Hs Hn Hlen Hall. repeat apply conj.
  - apply weighted_mean_single. exact Hs.
  - rewrite chi_squared_value by lra. f_equal.
    replace (v - v) with 0 by lra. unfold Rdiv. simpl. ring.
  - apply tension_self. lra.
  - apply joint_fit_parameter_single. lra.
  - rewrite joint_fit_parameter_general.
    + rewrite py_div_ok, bind_Returns.
      * eexists. split; [reflexivity|]. split; reflexivity.
      * apply not_0_IZR. lia.
    + intros ->. simpl in Hlen. lia.
    + apply Forall_pos_nonzero. exact Hall.
Qed.

Lemma single_measurement_statistics_witness :
  weighted_mean [6736 / 100] [54 / 100] = Returns (6736 / 100, 54 / 100) /\
  joint_fit_parameter [6736 / 100] [54 / 100] = Raises ZeroDivisionError.
Proof.
  pose proof (single_measurement_statistics
                (6736 / 100) (54 / 100) [6736 / 100; 678 / 10] [54 / 100; 13 / 10])
    as (H1 & _ & _ & H4 & _).
  - lra.
  - simpl. lia.
  - reflexivity.
  - repeat constructor; lra.
  - split; assumption.
Defined.

(** C8 as stated fails: with the single measurement 67.36 +/- 0.54 the
    ratio chi2/dof is a division by zero that nothing guards. *)
Lemma single_probe_divides_by_zero :
  joint_fit_parameter [6736 / 100] [54 / 100] = Raises ZeroDivisionError.
Proof. apply joint_fit_parameter_single. lra. Qed.

(** * The resolution schedule *)

Section Schedule.

Variable table : gmap Z R.

Lemma schedule_loop_values (schedule : list Z) (values corrections : list R)
    (current_value : R) :
  (schedule_loop table schedule values corrections current_value).1.1
  = values ++ running_values table current_value schedule.
Proof.
  revert values corrections current_value.
  induction schedule as [|b rest IH]; intros values corrections current_value.
  - simpl. rewrite app_nil_r. reflexivity.
  - simpl. rewrite IH, <- app_assoc. reflexivity.
Qed.

Lemma schedule_loop_corrections (schedule : list Z) (values corrections : list R)
    (current_value : R) :
  (schedule_loop table schedule values corrections current_value).1.2
  = corrections ++ map (table_correction table) schedule.
Proof.
  revert values corrections current_value.
  induction schedule as [|b rest IH]; intros values corrections current_value.
  - simpl. rewrite app_nil_r. reflexivity.
  - simpl. rewrite IH, <- app_assoc. reflexivity.
Qed.

Lemma schedule_loop_final (schedule : list Z) (values corrections : list R)
    (current_value : R) :
  (schedule_loop table schedule values corrections current_value).2
  = current_value + Rsum (map (table_correction table) schedule).
Proof.
  revert values corrections current_value.
  induction schedule as [|b rest IH]; intros values corrections current_value.
  - simpl. lra.
  - simpl. rewrite IH. unfold table_correction. lra.
Qed.

Lemma running_values_last (schedule : list Z) (values corrections : list R)
    (current_value : R) :
  last (current_value :: running_values table current_value schedule)
  = Some (schedule_loop table schedule values corrections current_value).2.
Proof.
  revert values corrections current_value.
  induction schedule as [|b rest IH]; intros values corrections current_value.
  - reflexivity.
  - simpl running_values. rewrite last_cons_cons.
    rewrite (IH (values ++ [current_value + table_correction table b])
                (corrections ++ [table_correction table b])).
    reflexivity.
Qed.

Lemma running_values_length (schedule : list Z) (current_value : R) :
  length (running_values table current_value schedule) = length schedule.
Proof.
  revert current_value. induction schedule as [|b rest IH]; intros c; simpl;
    [reflexivity|rewrite IH; reflexivity].
Qed.

End Schedule.

(** C9: the recorded corrections are 0.0 for the initial entry and then,
    for each level of the schedule, the table entry when present and 0.0
    when absent; final_value is initial_value plus their sum;
    total_correction is final_value - initial_value; values_by_resolution
    has len(schedule) + 1 entries, the first initial_value and the last
    final_value. *)
Theorem resolution_schedule_accumulates
    (initial_value : R) (schedule : list Z) (table : gmap Z R) :
  let r := apply_resolution_schedule initial_value schedule table in
  corrections_by_resolution r
    = 0 :: map (fun res_bits =>
                  match table !! res_bits with Some c => c | None => 0 end)
               schedule /\
  final_value r = initial_value + Rsum (corrections_by_resolution r) /\
  total_correction r = final_value r - initial_value /\
  length (values_by_resolution r) = S (length schedule) /\
  head (values_by_resolution r) = Some initial_value /\
  last (values_by_resolution r) = Some (final_value r) /\
  values_by_resolution r
    = initial_value :: running_values table initial_value schedule.
Proof.
  unfold apply_resolution_schedule.
  pose proof (schedule_loop_values table schedule [initial_value] [0] initial_value) as Hv.
  pose proof (schedule_loop_corrections table schedule [initial_value] [0] initial_value) as Hc.
  pose proof (schedule_loop_final table schedule [initial_value] [0] initial_value) as Hf.
  pose proof (running_values_last table schedule [initial_value] [0] initial_value) as Hl.
  destruct (schedule_loop table schedule [initial_value] [0] initial_value)
    as [[values corrections] current_value].
  simpl in Hv, Hc, Hf, Hl. subst values corrections. simpl.
  repeat apply conj; try reflexivity.
  - rewrite Hf. unfold table_correction. lra.
  - rewrite running_values_length. reflexivity.
  - exact Hl.
Qed.

(** * Fitting the baseline back *)

Lemma np_pow_pos (x y : R) :
  0 < x -> y <> 0 -> np_pow x y = Returns (Rpower x y).
Proof.
  intros Hx Hy. unfold np_pow.
  destruct (Req_dec_T y 0) as [E|_]; [contradiction|].
  destruct (Rlt_dec 0 x) as [_|N]; [reflexivity|contradiction].
Qed.

Lemma mapM_map_returns {A B C : Type} (f : B -> outcome C) (k : A -> B)
    (g : A -> C) (l : list A) :
  Forall (fun x => f (k x) = Returns (g x)) l ->
  mapM f (map k l) = Returns (map g l).
Proof.
  induction 1 as [|x l Hx _ IH]; [reflexivity|].
  cbn. rewrite Hx. cbn in IH. rewrite IH. reflexivity.
Qed.

Lemma combine_map_both {A B C : Type} (f : A -> B) (g : A -> C) (l : list A) :
  combine (map f l) (map g l) = map (fun x => (f x, g x)) l.
Proof. induction l as [|x l IH]; simpl; [reflexivity|rewrite IH; reflexivity]. Qed.

Lemma np_broadcast_same (f : R -> R -> outcome R) (a b : list R) :
  length a = length b ->
  np_broadcast f a b = mapM (fun p : R * R => f p.1 p.2) (combine a b).
Proof.
  intros E. unfold np_broadcast. rewrite E, Nat.eqb_refl. reflexivity.
Qed.

Lemma np_broadcast_map (f : R -> R -> outcome R) (h : R -> R)
    (p q : R -> R) (l : list R) :
  Forall (fun x => f (p x) (q x) = Returns (h x)) l ->
  np_broadcast f (map p l) (map q l) = Returns (map h l).
Proof.
  intros H. rewrite np_broadcast_same by (rewrite !length_map; reflexivity).
  rewrite combine_map_both. apply mapM_map_returns. exact H.
Qed.

Lemma np_mean_value (x : R) (l : list R) :
  np_mean (x :: l) = Returns (Rsum (x :: l) / INR (length (x :: l))).
Proof. unfold np_mean. rewrite py_sum_Rsum. reflexivity. Qed.

Lemma np_mean_constant {A : Type} (c : R) (f : A -> R) (l : list A) :
  l <> [] -> Forall (fun x => f x = c) l -> np_mean (map f l) = Returns c.
Proof.
  intros Hne Hall.
  assert (E : map f l = repeat c (length l)).
  { clear Hne. induction Hall as [|x l Hx _ IH]; simpl; [reflexivity|].
    rewrite Hx, IH. reflexivity. }
  rewrite E. destruct l as [|x l]; [contradiction|].
  change (repeat c (length (x :: l))) with (c :: repeat c (length l)).
  rewrite np_mean_value. f_equal.
  change (c :: repeat c (length l)) with (repeat c (S (length l))).
  rewrite Rsum_repeat, repeat_length.
  assert (0 < INR (S (length l))) by (apply lt_0_INR; lia).
  field. lra.
Qed.

Lemma np_std_constant {A : Type} (c : R) (f : A -> R) (l : list A) :
  l <> [] -> Forall (fun x => f x = c) l -> np_std (map f l) = Returns 0.
Proof.
  intros Hne Hall. unfold np_std.
  rewrite (np_mean_constant c), bind_Returns by assumption.
  rewrite map_map.
  rewrite (np_mean_constant 0), bind_Returns.
  - rewrite np_sqrt_ok by lra. rewrite sqrt_0. reflexivity.
  - exact Hne.
  - eapply Forall_impl; [exact Hall|]. intros x Hx. cbn beta. rewrite Hx. ring.
Qed.

Lemma scaling_factor_array_value (zs : list R) :
  Forall (fun z => 0 <= z) zs ->
  calculate_redshift_scaling_factor_array zs REDSHIFT_SCALING_EXPONENT
  = Returns (map (fun z => / sqrt (1 + z)) zs).
Proof.
  intros H. unfold calculate_redshift_scaling_factor_array.
  apply mapM_returns. eapply Forall_impl; [exact H|].
  intros z Hz. cbn beta.
  rewrite np_pow_pos by (try apply exponent_nonzero; lra).
  rewrite Rpower_minus_half by lra. reflexivity.
Qed.

Lemma generated_corrections (zs cs : list R) (A : R) :
  Forall (fun z => 0 <= z) zs ->
  Forall2 (fun z c => correction z A = Returns (Float c)) zs cs ->
  cs = map (fun z => A / sqrt (1 + z)) zs.
Proof.
  intros Hz H. induction H as [|z c zs cs Hc _ IH]; [reflexivity|].
  inversion Hz as [|? ? Hz0 Hzs]; subst.
  rewrite correction_value in Hc by lra. injection Hc as <-.
  simpl. rewrite <- IH by assumption. reflexivity.
Qed.

Lemma inv_sqrt_nonzero (z : R) : 0 <= z -> / sqrt (1 + z) <> 0.
Proof.
  intros Hz. apply Rinv_neq_0_compat, Rgt_not_eq, sqrt_lt_R0. lra.
Qed.

(** C3: when the corrections are the ones the correction function gives
    at redshifts z_i >= 0 with baseline A, the fit returns baseline A
    with baseline_std 0 and rms_residual 0 (exact arithmetic). *)
Theorem baseline_fit_roundtrip (zs cs : list R) (A : R) :
  zs <> [] ->
  Forall (fun z => 0 <= z) zs ->
  Forall2 (fun z c => correction z A = Returns (Float c)) zs cs ->
  fit_baseline_from_bins zs cs
  = Returns {| fit_baseline := A;
               fit_baseline_std := 0;
               fit_rms_residual := 0;
               fit_n_bins := length zs |}.
Proof.
  intros Hne Hz Hgen.
  rewrite (generated_corrections zs cs A Hz Hgen).
  unfold fit_baseline_from_bins.
  rewrite scaling_factor_array_value, bind_Returns by assumption.
  rewrite (np_broadcast_map np_div (fun _ => A)), bind_Returns.
  2:{ eapply Forall_impl; [exact Hz|]. intros z Hz0. cbn beta.
      rewrite np_div_ok by (apply inv_sqrt_nonzero; exact Hz0).
      f_equal. field. apply Rgt_not_eq, sqrt_lt_R0. lra. }
  rewrite (np_mean_constant A), bind_Returns
    by (try assumption; apply Forall_forall; reflexivity).
  rewrite (np_std_constant A), bind_Returns
    by (try assumption; apply Forall_forall; reflexivity).
  rewrite map_map.
  rewrite (np_broadcast_map _ (fun _ => 0)), bind_Returns.
  2:{ apply Forall_forall. intros z _. f_equal. unfold Rdiv. ring. }
  rewrite map_map.
  rewrite (np_mean_constant 0), bind_Returns.
  2: assumption.
  2:{ apply Forall_forall. intros z _. simpl. ring. }
  rewrite np_sqrt_ok, bind_Returns, sqrt_0 by lra.
  reflexivity.
Qed.

Lemma baseline_fit_roundtrip_witness :
  fit_baseline_from_bins [0; 3]
    [UNIVERSAL_BASELINE / sqrt (1 + 0); UNIVERSAL_BASELINE / sqrt (1 + 3)]
  = Returns {| fit_baseline := UNIVERSAL_BASELINE;
               fit_baseline_std := 0;
               fit_rms_residual := 0;
               fit_n_bins := 2 |}.
Proof.
  apply (baseline_fit_roundtrip [0; 3] _ UNIVERSAL_BASELINE).
  - discriminate.
  - repeat constructor; lra.
  - repeat constructor; apply correction_value; lra.
Defined.

(** * Cross-survey consistency *)

Lemma dict_set_fresh {V : Type} (k : string) (v : V) (d : list (string * V)) :
  ~ In k (map fst d) -> dict_set k v d = d ++ [(k, v)].
Proof.
  induction d as [|[k' v'] d IH]; intros Hk; simpl; [reflexivity|].
  destruct (String.eqb_spec k k') as [->|_].
  - exfalso. apply Hk. left. reflexivity.
  - rewrite IH; [reflexivity|]. intros Hin. apply Hk. right. exact Hin.
Qed.

Lemma collect_baselines_all (items : list (string * gmap string R))
    (bs : list R) (acc : list (string * R)) :
  List.NoDup (map fst acc ++ map fst items) ->
  Forall2 (fun item b => item.2 !! "baseline"%string = Some b) items bs ->
  collect_baselines items acc
  = Returns (acc ++ combine (map fst items) bs).
Proof.
  intros Hnd H. revert acc Hnd.
  induction H as [|[name results] b items bs Hb _ IH]; intros acc Hnd.
  - simpl. rewrite app_nil_r. reflexivity.
  - simpl in Hb. simpl. rewrite Hb.
    rewrite dict_set_fresh.
    + rewrite IH.
      * rewrite <- app_assoc. reflexivity.
      * rewrite map_app, <- app_assoc. exact Hnd.
    + apply List.NoDup_remove_2 in Hnd. intros Hin. apply Hnd.
      apply in_or_app. left. exact Hin.
Qed.

Lemma map_snd_combine {A B : Type} (l : list A) (l' : list B) :
  length l = length l' -> map snd (combine l l') = l'.
Proof.
  revert l'. induction l as [|x l IH]; intros [|y l'] E; simpl in *;
    try reflexivity; try discriminate.
  rewrite IH by lia. reflexivity.
Qed.

Lemma Rsum_squares_nonneg (m : R) (l : list R) :
  0 <= Rsum (map (fun x => (x - m) * (x - m)) l).
Proof.
  unfold Rsum. induction l as [|x l IH]; simpl; [lra|].
  pose proof (Rle_0_sqr (x - m)) as Hsq. unfold Rsqr in Hsq. lra.
Qed.

Lemma np_mean_nonempty (l : list R) :
  l <> [] -> np_mean l = Returns (Rsum l / INR (length l)).
Proof. destruct l; [contradiction|]. intros _. apply np_mean_value. Qed.

Lemma np_std_value (l : list R) :
  l <> [] ->
  np_std l
  = Returns (sqrt (Rsum (map (fun x => (x - Rsum l / INR (length l)) ^ 2) l)
                   / INR (length l))).
Proof.
  intros Hne. unfold np_std.
  rewrite np_mean_nonempty, bind_Returns by exact Hne.
  rewrite np_mean_nonempty, bind_Returns
    by (destruct l; [contradiction|discriminate]).
  rewrite length_map.
  assert (Hn : 0 < INR (length l)).
  { apply lt_0_INR. destruct l; [contradiction|simpl; lia]. }
  rewrite np_sqrt_ok.
  - do 3 f_equal. f_equal. apply map_ext. intros y. simpl. ring.
  - apply Rmult_le_pos; [apply Rsum_squares_nonneg|].
    apply Rlt_le, Rinv_0_lt_compat, Hn.
Qed.

Lemma fold_left_Rmax_bounds (l : list R) (x : R) :
  x <= fold_left Rmax l x /\
  Forall (fun y => y <= fold_left Rmax l x) l /\
  In (fold_left Rmax l x) (x :: l).
Proof.
  revert x. induction l as [|y l IH]; intros x; simpl.
  - split; [lra|]. split; [constructor|]. left. reflexivity.
  - destruct (IH (Rmax x y)) as (H1 & H2 & H3).
    pose proof (Rmax_l x y). pose proof (Rmax_r x y).
    split; [lra|]. split; [constructor; [lra|exact H2]|].
    destruct H3 as [H3|H3]; [|right; right; exact H3].
    rewrite <- H3. unfold Rmax. destruct (Rle_dec x y); [right; left|left]; reflexivity.
Qed.

Lemma np_max_value (l : list R) :
  l <> [] ->
  exists M : R,
    np_max l = Returns M /\ Forall (fun y => y <= M) l /\ In M l.
Proof.
  intros Hne. destruct l as [|x l]; [contradiction|].
  exists (fold_left Rmax l x).
  destruct (fold_left_Rmax_bounds l x) as (H1 & H2 & H3).
  split; [reflexivity|]. split; [constructor; assumption|exact H3].
Qed.

Lemma consistency_thresholds_status (std : R) :
  ((consistency_thresholds std).2 = EXCELLENT <-> std < 3 / 1000) /\
  ((consistency_thresholds std).2 = GOOD <-> 3 / 1000 <= std < 5 / 1000) /\
  ((consistency_thresholds std).2 = MARGINAL <-> 5 / 1000 <= std) /\
  ((consistency_thresholds std).1 = true <-> std < 5 / 1000).
Proof.
  unfold consistency_thresholds. simpl.
  destruct (bool_decide_reflect (std < 3 / 1000));
    destruct (bool_decide_reflect (std < 5 / 1000)); simpl;
    repeat split; intros; try discriminate; try reflexivity; lra.
Qed.

(** The three classifications of the specification's examples. *)
Lemma consistency_thresholds_examples :
  consistency_thresholds (2 / 1000) = (true, EXCELLENT) /\
  consistency_thresholds (4 / 1000) = (true, GOOD) /\
  consistency_thresholds (6 / 1000) = (false, MARGINAL).
Proof.
  unfold consistency_thresholds. repeat split; decide_R; reflexivity.
Qed.

(** C7: for a non-empty dict of survey results that all carry a baseline,
    the check returns the mean of the baselines, their (population)
    standard deviation and the largest absolute deviation from the mean,
    with status EXCELLENT exactly when std < 0.003, GOOD exactly when
    0.003 <= std < 0.005 and MARGINAL exactly when std >= 0.005. *)
Theorem cross_survey_consistency_classifies
    (survey_results : list (string * gmap string R)) (bs : list R) :
  survey_results <> [] ->
  List.NoDup (map fst survey_results) ->
  Forall2 (fun item b => item.2 !! "baseline"%string = Some b)
          survey_results bs ->
  exists r : consistency,
    check_cross_survey_consistency survey_results = Returns r /\
    cs_baselines r = combine (map fst survey_results) bs /\
    cs_mean_baseline r = Rsum bs / INR (length bs) /\
    cs_std_baseline r
      = sqrt (Rsum (map (fun b => (b - cs_mean_baseline r) ^ 2) bs)
              / INR (length bs)) /\
    Forall (fun b => Rabs (b - cs_mean_baseline r) <= cs_max_difference r) bs /\
    Exists (fun b => Rabs (b - cs_mean_baseline r) = cs_max_difference r) bs /\
    (cs_status r = EXCELLENT <-> cs_std_baseline r < 3 / 1000) /\
    (cs_status r = GOOD <-> 3 / 1000 <= cs_std_baseline r < 5 / 1000) /\
    (cs_status r = MARGINAL <-> 5 / 1000 <= cs_std_baseline r) /\
    (cs_std_baseline r = 2 / 1000 -> cs_status r = EXCELLENT) /\
    (cs_std_baseline r = 4 / 1000 -> cs_status r = GOOD) /\
    (cs_std_baseline r = 6 / 1000 -> cs_status r = MARGINAL).
Proof.
  intros Hne Hnd Hbs.
  assert (Hlen : length (map fst survey_results) = length bs).
  { rewrite length_map. eapply Forall2_length. exact Hbs. }
  assert (Hbne : bs <> []).
  { intros ->. destruct survey_results; [contradiction|discriminate]. }
  unfold check_cross_survey_consistency.
  rewrite (collect_baselines_all survey_results bs []), bind_Returns
    by assumption.
  rewrite app_nil_l, map_snd_combine by exact Hlen.
  rewrite np_mean_nonempty, bind_Returns by exact Hbne.
  rewrite np_std_value, bind_Returns by exact Hbne.
  destruct (np_max_value
              (map (fun b => Rabs (b - Rsum bs / INR (length bs))) bs))
    as (M & EM & Hle & Hin).
  { destruct bs; [contradiction|discriminate]. }
  rewrite EM, bind_Returns.
  eexists. split; [reflexivity|]. simpl.
  pose proof (consistency_thresholds_status
                (sqrt (Rsum (map (fun x => (x - Rsum bs / INR (length bs)) ^ 2) bs)
                       / INR (length bs)))) as (HE & HG & HM & _).
  repeat apply conj; try reflexivity; try tauto.
  - apply Forall_map in Hle. exact Hle.
  - apply in_map_iff in Hin. destruct Hin as (b & Hb & Hin).
    apply Exists_exists. exists b. split; [|exact Hb].
    apply list_elem_of_In. exact Hin.
  - intros E. apply HE. simpl in E. simpl. lra.
  - intros E. apply HG. simpl in E. simpl. lra.
  - intros E. apply HM. simpl in E. simpl. lra.
Qed.

Lemma cross_survey_consistency_classifies_witness :
  exists r : consistency,
    check_cross_survey_consistency
      [("KiDS-1000"%string, <["baseline"%string := 18 / 1000]> ∅);
       ("DES-Y3"%string, <["baseline"%string := 22 / 1000]> ∅)]
    = Returns r /\
    cs_mean_baseline r = 20 / 1000 /\
    cs_std_baseline r = 2 / 1000 /\
    cs_status r = EXCELLENT.
Proof.
  destruct (cross_survey_consistency_classifies
              [("KiDS-1000"%string, <["baseline"%string := 18 / 1000]> ∅);
               ("DES-Y3"%string, <["baseline"%string := 22 / 1000]> ∅)]
              [18 / 1000; 22 / 1000])
    as (r & Er & _ & Em & Es & _ & _ & _ & _ & _ & H2 & _).
  - discriminate.
  - repeat constructor; simpl; intuition discriminate.
  - repeat constructor.
  - assert (Em' : cs_mean_baseline r = 20 / 1000).
    { rewrite Em. simpl. lra. }
    assert (Es' : cs_std_baseline r = 2 / 1000).
    { rewrite Es, Em'. simpl.
      replace ((18 / 1000 - 20 / 1000) * ((18 / 1000 - 20 / 1000) * 1)
               + ((22 / 1000 - 20 / 1000) * ((22 / 1000 - 20 / 1000) * 1) + 0))
        with (2 * ((2 / 1000) * (2 / 1000))) by lra.
      replace (2 * (2 / 1000 * (2 / 1000)) / (1 + 1))
        with ((2 / 1000) * (2 / 1000)) by lra.
      apply sqrt_square. lra. }
    exists r. repeat split; try assumption. apply H2. exact Es'.
Defined.

(** * Corrections per bin *)

Lemma forallb_is_float_map (f : R -> R) (l : list R) :
  forallb is_float (map (fun z => Float (f z)) l) = true.
Proof. induction l as [|z l IH]; simpl; [reflexivity|exact IH]. Qed.

Lemma np_mean_num_floats (f : R -> R) (l : list R) :
  l <> [] ->
  np_mean_num (map (fun z => Float (f z)) l)
  = Returns (Float (Rsum (map f l) / INR (length l))).
Proof.
  intros Hne. unfold np_mean_num. rewrite forallb_is_float_map, map_map.
  rewrite np_mean_nonempty, bind_Returns
    by (destruct l; [contradiction|discriminate]).
  rewrite length_map. reflexivity.
Qed.

Lemma correction_loop_value (zs : list R) (s8_initial baseline : R)
    (cs fs : list num) :
  Forall (fun z => -1 < z) zs ->
  correction_loop zs s8_initial baseline cs fs
  = Returns (cs ++ map (fun z => Float (baseline / sqrt (1 + z))) zs,
             fs ++ map (fun z => Float (s8_initial + baseline / sqrt (1 + z))) zs).
Proof.
  intros H. revert cs fs. induction H as [|z zs Hz _ IH]; intros cs fs.
  - simpl. rewrite !app_nil_r. reflexivity.
  - simpl. fold (correction z baseline).
    rewrite correction_value, bind_Returns by exact Hz.
    rewrite IH, <- !app_assoc. reflexivity.
Qed.

Lemma correction_loop_raises (before after : list R) (s8_initial baseline : R)
    (cs fs : list num) :
  Forall (fun z => -1 < z) before ->
  correction_loop (before ++ -1 :: after) s8_initial baseline cs fs
  = Raises ZeroDivisionError.
Proof.
  intros H. revert cs fs. induction H as [|z zs Hz _ IH]; intros cs fs.
  - simpl. fold (correction (-1) baseline). rewrite correction_minus_one.
    reflexivity.
  - simpl. fold (correction z baseline).
    rewrite correction_value, bind_Returns by exact Hz. apply IH.
Qed.

Lemma Rsum_map_shift {A : Type} (a : R) (f : A -> R) (l : list A) :
  Rsum (map (fun x => a + f x) l) = INR (length l) * a + Rsum (map f l).
Proof.
  induction l as [|x l IH].
  - simpl. lra.
  - change (length (x :: l)) with (S (length l)). rewrite S_INR.
    change (Rsum (map (fun y => a + f y) (x :: l)))
      with (a + f x + Rsum (map (fun y => a + f y) l)).
    change (Rsum (map f (x :: l))) with (f x + Rsum (map f l)).
    rewrite IH. lra.
Qed.

(** X1: on a non-empty list of redshifts z_i > -1 the per-bin corrections
    are baseline / sqrt(1+z_i), each corrected S8 is s8_initial plus its
    correction, the two lists have one entry per bin, and the mean
    corrected S8 is s8_initial plus the mean correction. *)
Theorem apply_correction_to_bins_mean_shift
    (zs : list R) (s8_initial baseline : R) :
  zs <> [] -> Forall (fun z => -1 < z) zs ->
  exists (r : bin_corrections) (mean_correction : R),
    apply_correction_to_bins zs s8_initial baseline = Returns r /\
    bc_corrections r = map (fun z => Float (baseline / sqrt (1 + z))) zs /\
    bc_s8_final_per_bin r
      = map (fun z => Float (s8_initial + baseline / sqrt (1 + z))) zs /\
    length (bc_corrections r) = length zs /\
    length (bc_s8_final_per_bin r) = length zs /\
    bc_total_correction r = Float mean_correction /\
    mean_correction
      = Rsum (map (fun z => baseline / sqrt (1 + z)) zs) / INR (length zs) /\
    bc_s8_final_mean r = Float (s8_initial + mean_correction).
Proof.
  intros Hne Hz. unfold apply_correction_to_bins.
  rewrite correction_loop_value, bind_Returns by exact Hz. simpl.
  rewrite (np_mean_num_floats (fun z => baseline / sqrt (1 + z))), bind_Returns
    by exact Hne.
  rewrite (np_mean_num_floats (fun z => s8_initial + baseline / sqrt (1 + z))),
    bind_Returns by exact Hne.
  eexists. eexists. split; [reflexivity|]. simpl.
  rewrite !length_map. repeat split; try reflexivity.
  f_equal. rewrite Rsum_map_shift.
  assert (0 < INR (length zs)).
  { apply lt_0_INR. destruct zs; [contradiction|simpl; lia]. }
  field. lra.
Qed.

Lemma apply_correction_to_bins_mean_shift_witness :
  exists (r : bin_corrections) (mean_correction : R),
    apply_correction_to_bins [0; 3] (776 / 1000) UNIVERSAL_BASELINE = Returns r /\
    bc_total_correction r = Float mean_correction /\
    bc_s8_final_mean r = Float (776 / 1000 + mean_correction).
Proof.
  destruct (apply_correction_to_bins_mean_shift [0; 3] (776 / 1000) UNIVERSAL_BASELINE)
    as (r & m & Er & _ & _ & _ & _ & Et & _ & Em).
  - discriminate.
  - repeat constructor; lra.
  - exists r, m. repeat split; assumption.
Defined.

(** X2: a bin at redshift -1 stops apply_correction_to_bins with the
    ZeroDivisionError of the power, whatever bins follow, once the bins
    before it have z > -1. *)
Theorem apply_correction_to_bins_edge_cases
    (before after : list R) (s8_initial baseline : R) :
  Forall (fun z => -1 < z) before ->
  apply_correction_to_bins (before ++ -1 :: after) s8_initial baseline
    = Raises ZeroDivisionError.
Proof.
  intros H. unfold apply_correction_to_bins.
  rewrite correction_loop_raises by exact H. reflexivity.
Qed.

Lemma apply_correction_to_bins_edge_cases_witness :
  apply_correction_to_bins [1 / 2; -1; 1] (776 / 1000) UNIVERSAL_BASELINE
  = Raises ZeroDivisionError.
Proof.
  apply (apply_correction_to_bins_edge_cases [1 / 2] [1]).
  repeat constructor. lra.
Defined.

(** * More on the tension *)

Lemma tension_both_zero (v1 v2 : R) :
  calculate_tension_sigma v1 0 v2 0 = NonFinite.
Proof.
  unfold calculate_tension_sigma.
  replace (0 ^ 2 + 0 ^ 2) with 0 by (simpl; lra).
  rewrite np_sqrt_ok, bind_Returns, sqrt_0 by lra.
  unfold np_div. destruct (Req_dec_T 0 0); [reflexivity|contradiction].
Qed.

Lemma sigma_cases (s1 s2 : R) : (s1 = 0 /\ s2 = 0) \/ (s1 <> 0 \/ s2 <> 0).
Proof.
  destruct (Req_dec_T s1 0); destruct (Req_dec_T s2 0); tauto.
Qed.

Lemma tension_three_four : calculate_tension_sigma 1 3 2 4 = Returns (1 / 5).
Proof.
  rewrite tension_value by (left; lra). f_equal.
  replace (3 ^ 2 + 4 ^ 2) with (5 * 5) by (simpl; lra).
  rewrite sqrt_square by lra.
  replace (1 - 2) with (- (1)) by lra. rewrite Rabs_Ropp, Rabs_R1. reflexivity.
Qed.

(** X3: the tension does not depend on the order of the two measurements
    nor on the signs of the uncertainties; when it is a number it is
    non-negative, and it is 0 exactly when the two values are equal. *)
Theorem tension_symmetric_nonnegative (v1 s1 v2 s2 t : R) :
  calculate_tension_sigma v1 s1 v2 s2 = Returns t ->
  calculate_tension_sigma v2 s2 v1 s1 = Returns t /\
  calculate_tension_sigma v1 (- s1) v2 (- s2) = Returns t /\
  0 <= t /\
  (t = 0 <-> v1 = v2).
Proof.
  intros E.
  destruct (sigma_cases s1 s2) as [[-> ->]|Hs].
  { rewrite tension_both_zero in E. discriminate. }
  rewrite tension_value in E by exact Hs. injection E as <-.
  assert (Hpos : 0 < s1 ^ 2 + s2 ^ 2) by (destruct Hs; nra).
  assert (Hroot : 0 < sqrt (s1 ^ 2 + s2 ^ 2)) by (apply sqrt_lt_R0; exact Hpos).
  repeat apply conj.
  - rewrite tension_value by tauto.
    rewrite (Rabs_minus_sym v2 v1).
    replace (s2 ^ 2 + s1 ^ 2) with (s1 ^ 2 + s2 ^ 2) by lra. reflexivity.
  - rewrite tension_value by (destruct Hs; [left|right]; lra).
    replace ((- s1) ^ 2 + (- s2) ^ 2) with (s1 ^ 2 + s2 ^ 2) by (simpl; ring).
    reflexivity.
  - apply Rmult_le_pos; [apply Rabs_pos|]. apply Rlt_le, Rinv_0_lt_compat, Hroot.
  - intros E0. unfold Rdiv in E0. apply Rmult_integral in E0.
    destruct E0 as [E0|E0].
    + destruct (Req_dec_T v1 v2) as [|N]; [assumption|].
      apply Rminus_eq_contra in N. apply Rabs_no_R0 in N. contradiction.
    + exfalso. revert E0. apply Rinv_neq_0_compat, Rgt_not_eq. exact Hroot.
  - intros ->. replace (v2 - v2) with 0 by lra. rewrite Rabs_R0.
    unfold Rdiv. ring.
Qed.

Lemma tension_symmetric_nonnegative_witness :
  calculate_tension_sigma 2 4 1 3 = Returns (1 / 5) /\ 0 <= 1 / 5.
Proof.
  pose proof (tension_symmetric_nonnegative 1 3 2 4 (1 / 5) tension_three_four)
    as (H1 & _ & H3 & _).
  split; assumption.
Defined.

(** X4: evaluate_tension_reduction never divides by a non-positive
    initial tension (the percentage is then 0); for a positive initial
    tension the final tension is the initial one reduced by the reported
    percentage, so the percentage is 100 exactly when the final tension
    is 0, at most 100 exactly when the final tension is non-negative and
    negative exactly when the tension grew; converged means final < 2. *)
Theorem tension_reduction_percent (tension_initial tension_final : R) :
  let r := evaluate_tension_reduction tension_initial tension_final in
  (tension_initial <= 0 -> tr_reduction_percent r = 0) /\
  (0 < tension_initial ->
     tension_final = tension_initial * (1 - tr_reduction_percent r / 100) /\
     (tr_reduction_percent r = 100 <-> tension_final = 0) /\
     (tr_reduction_percent r <= 100 <-> 0 <= tension_final) /\
     (tr_reduction_percent r < 0 <-> tension_initial < tension_final)) /\
  (tr_converged r = true <-> tension_final < 2) /\
  tr_final_sigma r = tr_initial_sigma r - tr_reduction_sigma r.
Proof.
  unfold evaluate_tension_reduction. simpl. repeat apply conj.
  - intros H. destruct (bool_decide_reflect (0 < tension_initial)); [lra|reflexivity].
  - intros H. destruct (bool_decide_reflect (0 < tension_initial)); [|lra].
    set (p := (tension_initial - tension_final) / tension_initial * 100).
    assert (Hp : p * tension_initial = (tension_initial - tension_final) * 100).
    { unfold p. field. lra. }
    repeat split; intros; nra.
  - intros E. destruct (bool_decide_reflect (tension_final < 2)); [assumption|discriminate].
  - intros H. destruct (bool_decide_reflect (tension_final < 2)); [reflexivity|contradiction].
  - lra.
Qed.

Lemma tension_reduction_percent_witness :
  3 = 4 * (1 - tr_reduction_percent (evaluate_tension_reduction 4 3) / 100) /\
  tr_reduction_percent (evaluate_tension_reduction 0 3) = 0.
Proof.
  split.
  - apply (proj1 (proj2 (tension_reduction_percent 4 3))). lra.
  - apply (proj1 (tension_reduction_percent 0 3)). lra.
Defined.

(** * Convergence of a sequence of values *)

Lemma non_increasing_head_bound (d : R) (l : list R) :
  non_increasing (d :: l) = true -> Forall (fun x => x <= d) l.
Proof.
  revert d. induction l as [|d' l IH]; intros d H; [constructor|].
  simpl in H. apply andb_prop in H. destruct H as [Hd Hrest].
  apply bool_decide_eq_true in Hd.
  constructor; [exact Hd|].
  eapply Forall_impl; [apply IH; exact Hrest|]. intros x Hx. cbn beta. lra.
Qed.

Lemma non_increasing_last_bound (l : list R) :
  non_increasing l = true -> Forall (fun x => List.last l 0 <= x) l.
Proof.
  induction l as [|d l IH]; intros H; [constructor|].
  destruct l as [|d' l'].
  - constructor; [simpl; lra|constructor].
  - pose proof H as H'. simpl in H'. apply andb_prop in H'.
    destruct H' as [Hd Hrest]. apply bool_decide_eq_true in Hd.
    specialize (IH Hrest).
    change (List.last (d :: d' :: l') 0) with (List.last (d' :: l') 0).
    constructor; [|exact IH].
    inversion IH as [|? ? Hfirst _]; subst. lra.
Qed.

(** X5: with fewer than two values every flag of
    check_monotonic_convergence is False (also when the single value is
    the target), and the final distance is that value's distance, or
    infinity for no value.  With a first value v0 and a last value vn,
    converges means |vn - target| < |v0 - target|, reached_target means
    |vn - target| < tolerance, and when monotonic is True every value's
    distance to the target lies between the last and the first one. *)
Theorem monotonic_convergence_bounds
    (v v0 vn target tolerance : R) (middle : list R) :
  let short := check_monotonic_convergence [v] target tolerance in
  let none := check_monotonic_convergence [] target tolerance in
  let r := check_monotonic_convergence (v0 :: middle ++ [vn]) target tolerance in
  (cv_converges short = false /\ cv_reached_target short = false /\
   cv_monotonic short = false /\
   cv_final_distance short = Finite (Rabs (v - target))) /\
  (cv_converges none = false /\ cv_reached_target none = false /\
   cv_monotonic none = false /\ cv_final_distance none = Infinite) /\
  cv_final_distance r = Finite (Rabs (vn - target)) /\
  cv_initial_distance r = Some (Rabs (v0 - target)) /\
  (cv_converges r = true <-> Rabs (vn - target) < Rabs (v0 - target)) /\
  (cv_reached_target r = true <-> Rabs (vn - target) < tolerance) /\
  (cv_monotonic r = true ->
     Forall (fun x => Rabs (vn - target) <= Rabs (x - target)
                      <= Rabs (v0 - target))
            (v0 :: middle ++ [vn])).
Proof.
  intros short none r.
  split; [repeat split|]. split; [repeat split|].
  assert (Hlen : (length (v0 :: middle ++ [vn]) <? 2)%nat = false).
  { apply Nat.ltb_ge. simpl. rewrite length_app. simpl. lia. }
  assert (Hlast : List.last (map (fun x => Rabs (x - target))
                               (v0 :: middle ++ [vn])) 0
                  = Rabs (vn - target)).
  { change (v0 :: middle ++ [vn]) with ((v0 :: middle) ++ [vn]).
    rewrite map_app. simpl map at 2. apply List.last_last. }
  unfold r, check_monotonic_convergence. rewrite Hlen. cbn [cv_converges
    cv_reached_target cv_monotonic cv_final_distance cv_initial_distance].
  rewrite Hlast. repeat apply conj; try reflexivity.
  - apply bool_decide_eq_true.
  - intros H. apply bool_decide_eq_true. exact H.
  - apply bool_decide_eq_true.
  - intros H. apply bool_decide_eq_true. exact H.
  - intros Hmono.
    pose proof (non_increasing_last_bound _ Hmono) as Hl.
    rewrite Hlast in Hl.
    change (map (fun x => Rabs (x - target)) (v0 :: middle ++ [vn]))
      with (Rabs (v0 - target)
            :: map (fun x => Rabs (x - target)) (middle ++ [vn])) in Hmono, Hl.
    pose proof (non_increasing_head_bound _ _ Hmono) as Hh.
    inversion Hl as [|? ? Hl0 Hlrest]; subst.
    rewrite List.Forall_forall in Hlrest, Hh.
    constructor; [split; [exact Hl0|lra]|].
    apply List.Forall_forall. intros x Hx.
    split; [apply Hlrest|apply Hh];
      apply (List.in_map (fun y => Rabs (y - target))); exact Hx.
Qed.

Lemma monotonic_convergence_bounds_witness :
  Forall (fun x => Rabs (2 - 2) <= Rabs (x - 2) <= Rabs (5 - 2)) (5 :: [3] ++ [2]).
Proof.
  apply (monotonic_convergence_bounds 0 5 2 2 (1 / 100) [3]).
  unfold check_monotonic_convergence. simpl.
  replace (5 - 2) with 3 by lra. replace (3 - 2) with 1 by lra.
  replace (2 - 2) with 0 by lra.
  rewrite Rabs_R0, Rabs_R1, (Rabs_pos_eq 3) by lra.
  decide_R; reflexivity.
Defined.

(** * More on the cross-survey check *)

Lemma collect_baselines_missing (before after : list (string * gmap string R))
    (name : string) (results : gmap string R) (acc : list (string * R)) :
  Forall (fun item => is_Some (item.2 !! "baseline"%string)) before ->
  results !! "baseline"%string = None ->
  collect_baselines (before ++ (name, results) :: after) acc = Raises ValueError.
Proof.
  intros Hb Hmiss. revert acc.
  induction Hb as [|[n res] before [b Hres] _ IH]; intros acc; simpl.
  - rewrite Hmiss. reflexivity.
  - simpl in Hres. rewrite Hres. apply IH.
Qed.

(** X6: as soon as one survey's results have no 'baseline' key,
    check_cross_survey_consistency raises ValueError, whatever the other
    surveys hold. *)
Theorem cross_survey_missing_baseline
    (before after : list (string * gmap string R))
    (name : string) (results : gmap string R) :
  Forall (fun item => is_Some (item.2 !! "baseline"%string)) before ->
  results !! "baseline"%string = None ->
  check_cross_survey_consistency (before ++ (name, results) :: after)
  = Raises ValueError.
Proof.
  intros Hb Hmiss. unfold check_cross_survey_consistency.
  rewrite collect_baselines_missing by assumption. reflexivity.
Qed.

Lemma cross_survey_missing_baseline_witness :
  check_cross_survey_consistency
    [("KiDS-1000"%string, <["baseline"%string := 18 / 1000]> ∅);
     ("DES-Y3"%string, <["s8"%string := 776 / 1000]> ∅);
     ("HSC-Y3"%string, <["baseline"%string := 22 / 1000]> ∅)]
  = Raises ValueError.
Proof.
  apply (cross_survey_missing_baseline
           [("KiDS-1000"%string, <["baseline"%string := 18 / 1000]> ∅)]
           [("HSC-Y3"%string, <["baseline"%string := 22 / 1000]> ∅)]
           "DES-Y3"%string (<["s8"%string := 776 / 1000]> ∅)).
  - repeat constructor. exists (18 / 1000). reflexivity.
  - reflexivity.
Defined.

Lemma Rsum_le_bound (c : R) (l : list R) :
  Forall (fun x => x <= c) l -> Rsum l <= INR (length l) * c.
Proof.
  induction 1 as [|x l Hx _ IH].
  - simpl. lra.
  - change (length (x :: l)) with (S (length l)). rewrite S_INR.
    change (Rsum (x :: l)) with (x + Rsum l). lra.
Qed.

Lemma std_le_max_deviation (m M : R) (l : list R) :
  l <> [] ->
  Forall (fun b => Rabs (b - m) <= M) l ->
  sqrt (Rsum (map (fun b => (b - m) ^ 2) l) / INR (length l)) <= M.
Proof.
  intros Hne Hall.
  assert (Hn : 0 < INR (length l)).
  { apply lt_0_INR. destruct l; [contradiction|simpl; lia]. }
  assert (HM : 0 <= M).
  { destruct l as [|b l]; [contradiction|].
    inversion Hall as [|? ? Hb _]; subst. pose proof (Rabs_pos (b - m)). lra. }
  apply Rle_trans with (sqrt (M ^ 2)); [|rewrite sqrt_pow2 by exact HM; lra].
  apply sqrt_le_1_alt.
  apply Rmult_le_reg_r with (INR (length l)); [exact Hn|].
  unfold Rdiv. rewrite Rmult_assoc, Rinv_l, Rmult_1_r by lra.
  rewrite Rmult_comm, <- (length_map (fun b => (b - m) ^ 2) l).
  apply Rsum_le_bound.
  apply List.Forall_forall. intros x Hx. apply List.in_map_iff in Hx.
  destruct Hx as (b & <- & Hb).
  rewrite List.Forall_forall in Hall. specialize (Hall b Hb).
  rewrite <- (pow2_abs (b - m)). pose proof (Rabs_pos (b - m)). nra.
Qed.

Lemma cross_survey_consistency_fields
    (survey_results : list (string * gmap string R)) (bs : list R) :
  survey_results <> [] ->
  List.NoDup (map fst survey_results) ->
  Forall2 (fun item b => item.2 !! "baseline"%string = Some b)
          survey_results bs ->
  exists M : R,
    let mean := Rsum bs / INR (length bs) in
    let std := sqrt (Rsum (map (fun b => (b - mean) ^ 2) bs) / INR (length bs)) in
    bs <> [] /\
    Forall (fun b => Rabs (b - mean) <= M) bs /\
    check_cross_survey_consistency survey_results
    = Returns {| cs_baselines := combine (map fst survey_results) bs;
                 cs_mean_baseline := mean;
                 cs_std_baseline := std;
                 cs_max_difference := M;
                 cs_consistent := (consistency_thresholds std).1;
                 cs_status := (consistency_thresholds std).2 |}.
Proof.
  intros Hne Hnd Hbs.
  assert (Hlen : length (map fst survey_results) = length bs).
  { rewrite length_map. eapply Forall2_length. exact Hbs. }
  assert (Hbne : bs <> []).
  { intros ->. destruct survey_results; [contradiction|discriminate]. }
  destruct (np_max_value
              (map (fun b => Rabs (b - Rsum bs / INR (length bs))) bs))
    as (M & EM & Hle & _).
  { destruct bs; [contradiction|discriminate]. }
  exists M. cbv zeta. split; [exact Hbne|]. split.
  - rewrite List.Forall_forall in Hle. apply List.Forall_forall.
    intros b Hb. apply Hle.
    apply (List.in_map (fun b => Rabs (b - Rsum bs / INR (length bs)))). exact Hb.
  - unfold check_cross_survey_consistency.
    rewrite (collect_baselines_all survey_results bs []), bind_Returns
      by assumption.
    rewrite app_nil_l, map_snd_combine by exact Hlen.
    rewrite np_mean_nonempty, bind_Returns by exact Hbne.
    rewrite np_std_value, bind_Returns by exact Hbne.
    rewrite EM, bind_Returns. reflexivity.
Qed.

(** X7: on a non-empty dict of surveys that all carry a baseline, the
    reported standard deviation never exceeds the reported maximum
    deviation from the mean, and 'consistent' is True exactly when the
    status is not MARGINAL. *)
Theorem cross_survey_std_below_max_difference
    (survey_results : list (string * gmap string R)) (bs : list R) :
  survey_results <> [] ->
  List.NoDup (map fst survey_results) ->
  Forall2 (fun item b => item.2 !! "baseline"%string = Some b)
          survey_results bs ->
  exists r : consistency,
    check_cross_survey_consistency survey_results = Returns r /\
    0 <= cs_std_baseline r <= cs_max_difference r /\
    (cs_consistent r = true <-> cs_status r <> MARGINAL).
Proof.
  intros Hne Hnd Hbs.
  destruct (cross_survey_consistency_fields survey_results bs Hne Hnd Hbs)
    as (M & Hbne & Hle & E).
  eexists. split; [exact E|]. simpl. split; [split|].
  - apply sqrt_pos.
  - apply std_le_max_deviation; assumption.
  - unfold consistency_thresholds. simpl.
    repeat match goal with
    | |- context [bool_decide ?P] => destruct (bool_decide P); simpl
    end; split; intros; try discriminate; try reflexivity; try congruence.
Qed.

Lemma cross_survey_std_below_max_difference_witness :
  exists r : consistency,
    check_cross_survey_consistency
      [("KiDS-1000"%string, <["baseline"%string := 18 / 1000]> ∅);
       ("DES-Y3"%string, <["baseline"%string := 22 / 1000]> ∅)]
    = Returns r /\
    0 <= cs_std_baseline r <= cs_max_difference r /\
    (cs_consistent r = true <-> cs_status r <> MARGINAL).
Proof.
  apply (cross_survey_std_below_max_difference _ [18 / 1000; 22 / 1000]).
  - discriminate.
  - repeat constructor; simpl; intuition discriminate.
  - repeat constructor.
Defined.

(** * Composing resolution schedules *)

Lemma running_values_app (table : gmap Z R) (s1 s2 : list Z) (c : R) :
  running_values table c (s1 ++ s2)
  = running_values table c s1
    ++ running_values table (c + Rsum (map (table_correction table) s1)) s2.
Proof.
  revert c. induction s1 as [|b s1 IH]; intros c.
  - simpl. replace (c + 0) with c by lra. reflexivity.
  - simpl. rewrite IH. do 3 f_equal. unfold Rsum. lra.
Qed.

Lemma apply_resolution_schedule_fields
    (initial_value : R) (schedule : list Z) (table : gmap Z R) :
  let r := apply_resolution_schedule initial_value schedule table in
  values_by_resolution r
    = initial_value :: running_values table initial_value schedule /\
  corrections_by_resolution r = 0 :: map (table_correction table) schedule /\
  final_value r = initial_value + Rsum (map (table_correction table) schedule) /\
  total_correction r = Rsum (map (table_correction table) schedule).
Proof.
  unfold apply_resolution_schedule.
  pose proof (schedule_loop_values table schedule [initial_value] [0] initial_value) as Hv.
  pose proof (schedule_loop_corrections table schedule [initial_value] [0] initial_value) as Hc.
  pose proof (schedule_loop_final table schedule [initial_value] [0] initial_value) as Hf.
  destruct (schedule_loop table schedule [initial_value] [0] initial_value)
    as [[values corrections] current_value].
  simpl in Hv, Hc, Hf. subst values corrections. simpl.
  repeat split; try reflexivity; lra.
Qed.

Lemma running_values_untouched (table : gmap Z R) (schedule : list Z) (c : R) :
  Forall (fun res_bits => table !! res_bits = None) schedule ->
  Forall (fun v => v = c) (running_values table c schedule).
Proof.
  induction 1 as [|b s Hb _ IH]; simpl; [constructor|].
  unfold table_correction. rewrite Hb.
  replace (c + 0) with c by lra. constructor; [reflexivity|exact IH].
Qed.

(** X8: running a schedule s1 ++ s2 is running s1 and then s2 from the
    value s1 ended on: same final value, the total correction is the sum
    of the two totals, and the recorded values and corrections are those
    of the first run followed by those of the second without its initial
    entry.  A schedule none of whose levels is in the table leaves the
    value unchanged. *)
Theorem resolution_schedule_composes
    (initial_value : R) (s1 s2 : list Z) (table : gmap Z R) :
  let whole := apply_resolution_schedule initial_value (s1 ++ s2) table in
  let first := apply_resolution_schedule initial_value s1 table in
  let second := apply_resolution_schedule (final_value first) s2 table in
  final_value whole = final_value second /\
  total_correction whole = total_correction first + total_correction second /\
  values_by_resolution whole
    = values_by_resolution first ++ List.tl (values_by_resolution second) /\
  corrections_by_resolution whole
    = corrections_by_resolution first
      ++ List.tl (corrections_by_resolution second) /\
  (Forall (fun res_bits => table !! res_bits = None) s1 ->
     final_value first = initial_value /\
     Forall (fun v => v = initial_value) (values_by_resolution first)).
Proof.
  intros whole first second.
  destruct (apply_resolution_schedule_fields initial_value (s1 ++ s2) table)
    as (Wv & Wc & Wf & Wt).
  destruct (apply_resolution_schedule_fields initial_value s1 table)
    as (Fv & Fc & Ff & Ft).
  destruct (apply_resolution_schedule_fields (final_value first) s2 table)
    as (Sv & Sc & Sf & St).
  fold whole in Wv, Wc, Wf, Wt. fold first in Fv, Fc, Ff, Ft.
  fold second in Sv, Sc, Sf, St.
  rewrite map_app, Rsum_app in Wf, Wt.
  clearbody whole first second.
  repeat apply conj.
  - lra.
  - lra.
  - rewrite Wv, Fv, Sv, Ff. simpl. rewrite running_values_app. reflexivity.
  - rewrite Wc, Fc, Sc. simpl. rewrite map_app. reflexivity.
  - intros Hnone. split.
    + assert (Hz : Rsum (map (table_correction table) s1) = 0).
      { apply Rsum_zero. apply List.Forall_forall. intros x Hx.
        apply List.in_map_iff in Hx. destruct Hx as (b & <- & Hb).
        rewrite List.Forall_forall in Hnone. unfold table_correction.
        rewrite (Hnone b Hb). reflexivity. }
      lra.
    + rewrite Fv. constructor; [reflexivity|].
      apply running_values_untouched. exact Hnone.
Qed.

Lemma resolution_schedule_composes_witness :
  final_value (apply_resolution_schedule (776 / 1000) [8%Z; 12%Z] ∅) = 776 / 1000.
Proof.
  apply (resolution_schedule_composes (776 / 1000) [8%Z; 12%Z] [] ∅).
  repeat constructor.
Defined.

(** * More on the weighted mean *)

Lemma Rsum_nonneg (l : list R) : Forall (fun x => 0 <= x) l -> 0 <= Rsum l.
Proof.
  induction 1 as [|x l Hx _ IH]; [simpl; lra|].
  change (Rsum (x :: l)) with (x + Rsum l). lra.
Qed.

Lemma Rsum_ge_element (l : list R) (x : R) :
  Forall (fun y => 0 <= y) l -> In x l -> x <= Rsum l.
Proof.
  intros Hall Hin. induction Hall as [|y l Hy Hl IH]; [destruct Hin|].
  change (Rsum (y :: l)) with (y + Rsum l).
  pose proof (Rsum_nonneg l Hl).
  destruct Hin as [->|Hin]; [lra|]. specialize (IH Hin). lra.
Qed.

Lemma inverse_variance_abs (s : R) : s <> 0 -> 1 / s ^ 2 = (1 / Rabs s) ^ 2.
Proof.
  intros Hs. rewrite <- (pow2_abs s).
  assert (Rabs s <> 0) by (apply Rabs_no_R0; exact Hs).
  field. assumption.
Qed.

Lemma combined_sigma_le (sigmas : list R) (s : R) :
  Forall (fun x => x <> 0) sigmas -> In s sigmas ->
  1 / sqrt (Rsum (inverse_variances sigmas)) <= Rabs s.
Proof.
  intros Hall Hin.
  assert (Hs : s <> 0) by (rewrite List.Forall_forall in Hall; exact (Hall s Hin)).
  assert (Habs : 0 < Rabs s) by (apply Rabs_pos_lt; exact Hs).
  assert (Hw : 1 / s ^ 2 <= Rsum (inverse_variances sigmas)).
  { apply Rsum_ge_element.
    - eapply Forall_impl; [apply inverse_variances_pos; exact Hall|].
      intros x Hx. cbn beta. lra.
    - unfold inverse_variances. apply (List.in_map (fun x => 1 / x ^ 2)). exact Hin. }
  assert (Hroot : 1 / Rabs s <= sqrt (Rsum (inverse_variances sigmas))).
  { rewrite <- (sqrt_pow2 (1 / Rabs s))
      by (apply Rlt_le, Rdiv_lt_0_compat; lra).
    apply sqrt_le_1_alt. rewrite <- inverse_variance_abs by exact Hs. exact Hw. }
  assert (Hinv : 0 < 1 / Rabs s) by (apply Rdiv_lt_0_compat; lra).
  assert (Hpos : 0 < sqrt (Rsum (inverse_variances sigmas))) by lra.
  apply Rmult_le_reg_r with (sqrt (Rsum (inverse_variances sigmas))); [exact Hpos|].
  unfold Rdiv. rewrite Rmult_assoc, Rinv_l, Rmult_1_r by lra.
  apply Rmult_le_reg_r with (1 / Rabs s); [exact Hinv|].
  replace (Rabs s * sqrt (Rsum (inverse_variances sigmas)) * (1 / Rabs s))
    with (sqrt (Rsum (inverse_variances sigmas))) by (field; lra).
  lra.
Qed.

Lemma weighted_sum_bounds (a b : R) (values sigmas : list R) :
  length values = length sigmas ->
  Forall (fun s => s <> 0) sigmas ->
  Forall (fun v => a <= v <= b) values ->
  a * Rsum (inverse_variances sigmas) <= Rsum (weighted_values values sigmas)
  /\ Rsum (weighted_values values sigmas) <= b * Rsum (inverse_variances sigmas).
Proof.
  intros Hlen Hs Hv. revert sigmas Hlen Hs.
  induction Hv as [|v values Hv _ IH]; intros [|s sigmas] Hlen Hs;
    try discriminate.
  - simpl. lra.
  - inversion Hs as [|? ? Hs0 Hs']; subst.
    destruct (IH sigmas) as [IH1 IH2]; [simpl in Hlen; lia|exact Hs'|].
    unfold weighted_values, inverse_variances in *.
    change (Rsum (map (fun p : R * R => p.1 / p.2 ^ 2)
                      (combine (v :: values) (s :: sigmas))))
      with (v / s ^ 2
            + Rsum (map (fun p : R * R => p.1 / p.2 ^ 2) (combine values sigmas))).
    change (Rsum (map (fun x => 1 / x ^ 2) (s :: sigmas)))
      with (1 / s ^ 2 + Rsum (map (fun x => 1 / x ^ 2) sigmas)).
    assert (Hw : 0 < 1 / s ^ 2) by (apply Rdiv_lt_0_compat; [lra|nra]).
    replace (v / s ^ 2) with (v * (1 / s ^ 2)) by (unfold Rdiv; ring).
    split; nra.
Qed.

(** X9: for N >= 1 paired measurements with non-zero uncertainties, the
    combined uncertainty returned by weighted_mean is positive and at
    most every |s_i|, and the combined mean lies between any lower and
    upper bound of the values. *)
Theorem weighted_mean_bounds (a b : R) (values sigmas : list R) :
  sigmas <> [] -> length values = length sigmas ->
  Forall (fun s => s <> 0) sigmas ->
  Forall (fun v => a <= v <= b) values ->
  exists mean sigma : R,
    weighted_mean values sigmas = Returns (mean, sigma) /\
    a <= mean <= b /\
    0 < sigma /\
    Forall (fun s => sigma <= Rabs s) sigmas.
Proof.
  intros Hne Hlen Hs Hv.
  rewrite weighted_mean_value by assumption.
  assert (Hpos : 0 < Rsum (inverse_variances sigmas)).
  { apply Rsum_pos; [|apply inverse_variances_pos; exact Hs].
    unfold inverse_variances. destruct sigmas; [contradiction|discriminate]. }
  destruct (weighted_sum_bounds a b values sigmas Hlen Hs Hv) as [H1 H2].
  eexists. eexists. split; [reflexivity|]. repeat apply conj.
  - apply Rmult_le_reg_r with (Rsum (inverse_variances sigmas)); [exact Hpos|].
    unfold Rdiv. rewrite Rmult_assoc, Rinv_l, Rmult_1_r by lra. exact H1.
  - apply Rmult_le_reg_r with (Rsum (inverse_variances sigmas)); [exact Hpos|].
    unfold Rdiv. rewrite Rmult_assoc, Rinv_l, Rmult_1_r by lra. exact H2.
  - apply Rdiv_lt_0_compat; [lra|]. apply sqrt_lt_R0. exact Hpos.
  - apply List.Forall_forall. intros s Hin. apply combined_sigma_le; assumption.
Qed.

Lemma weighted_mean_bounds_witness :
  exists mean sigma : R,
    weighted_mean [6736 / 100; 685 / 10] [54 / 100; 5 / 10] = Returns (mean, sigma) /\
    67 <= mean <= 69 /\
    0 < sigma /\
    Forall (fun s => sigma <= Rabs s) [54 / 100; 5 / 10].
Proof.
  apply (weighted_mean_bounds 67 69).
  - discriminate.
  - reflexivity.
  - repeat constructor; lra.
  - repeat constructor; lra.
Defined.

Lemma residual_sum (m : R) (values sigmas : list R) :
  length values = length sigmas ->
  Rsum (map (fun p : R * R => (p.1 - m) / p.2 ^ 2) (combine values sigmas))
  = Rsum (weighted_values values sigmas) - m * Rsum (inverse_variances sigmas).
Proof.
  revert sigmas. induction values as [|v values IH]; intros [|s sigmas] Hlen;
    try discriminate.
  - simpl. lra.
  - unfold weighted_values, inverse_variances in *.
    change (Rsum (map (fun p : R * R => (p.1 - m) / p.2 ^ 2)
                      (combine (v :: values) (s :: sigmas))))
      with ((v - m) / s ^ 2
            + Rsum (map (fun p : R * R => (p.1 - m) / p.2 ^ 2)
                        (combine values sigmas))).
    change (Rsum (map (fun p : R * R => p.1 / p.2 ^ 2)
                      (combine (v :: values) (s :: sigmas))))
      with (v / s ^ 2
            + Rsum (map (fun p : R * R => p.1 / p.2 ^ 2) (combine values sigmas))).
    change (Rsum (map (fun x => 1 / x ^ 2) (s :: sigmas)))
      with (1 / s ^ 2 + Rsum (map (fun x => 1 / x ^ 2) sigmas)).
    rewrite IH by (simpl in Hlen; lia). unfold Rdiv. ring.
Qed.

(** X10: the mean returned by weighted_mean balances the measurements:
    the inverse-variance weighted residuals Sum((v_i - mean) / s_i^2)
    add up to 0. *)
Theorem weighted_mean_balances_residuals (values sigmas : list R) :
  sigmas <> [] -> length values = length sigmas ->
  Forall (fun s => s <> 0) sigmas ->
  exists mean sigma : R,
    weighted_mean values sigmas = Returns (mean, sigma) /\
    Rsum (map (fun p : R * R => (p.1 - mean) / p.2 ^ 2) (combine values sigmas))
    = 0.
Proof.
  intros Hne Hlen Hs.
  rewrite weighted_mean_value by assumption.
  eexists. eexists. split; [reflexivity|].
  rewrite residual_sum by exact Hlen.
  assert (Hpos : 0 < Rsum (inverse_variances sigmas)).
  { apply Rsum_pos; [|apply inverse_variances_pos; exact Hs].
    unfold inverse_variances. destruct sigmas; [contradiction|discriminate]. }
  field. lra.
Qed.

Lemma weighted_mean_balances_residuals_witness :
  exists mean sigma : R,
    weighted_mean [6736 / 100; 685 / 10] [54 / 100; 5 / 10] = Returns (mean, sigma) /\
    Rsum (map (fun p : R * R => (p.1 - mean) / p.2 ^ 2)
              (combine [6736 / 100; 685 / 10] [54 / 100; 5 / 10]))
    = 0.
Proof.
  apply weighted_mean_balances_residuals.
  - discriminate.
  - reflexivity.
  - repeat constructor; lra.
Defined.

(** X11: for N >= 2 paired measurements with non-zero uncertainties the
    per-parameter check of joint_fit_lambda_cdm returns a non-negative
    chi2 with dof = N - 1, and its verdict is CONSISTENT exactly when
    chi2 < 2 * dof. *)
Theorem joint_fit_parameter_verdict (values sigmas : list R) :
  (2 <= length values)%nat -> length values = length sigmas ->
  Forall (fun s => s <> 0) sigmas ->
  exists r : parameter_fit,
    joint_fit_parameter values sigmas = Returns r /\
    0 <= pf_chi2 r /\
    pf_dof r = (Z.of_nat (length values) - 1)%Z /\
    0 < pf_sigma r /\
    (pf_verdict r = CONSISTENT <-> pf_chi2 r < 2 * IZR (pf_dof r)).
Proof.
  intros Hn Hlen Hs.
  assert (Hne : sigmas <> []) by (intros ->; simpl in Hlen; lia).
  rewrite joint_fit_parameter_general by assumption.
  assert (Hdof : 0 < IZR (Z.of_nat (length values) - 1)) by (apply IZR_lt; lia).
  rewrite py_div_ok, bind_Returns by lra.
  eexists. split; [reflexivity|]. simpl.
  assert (Hpos : 0 < Rsum (inverse_variances sigmas)).
  { apply Rsum_pos; [|apply inverse_variances_pos; exact Hs].
    unfold inverse_variances. destruct sigmas; [contradiction|discriminate]. }
  set (chi2 := Rsum _).
  repeat apply conj.
  - apply Rsum_nonneg. apply List.Forall_forall. intros x Hx.
    apply List.in_map_iff in Hx. destruct Hx as (p & <- & _).
    apply pow2_ge_0.
  - reflexivity.
  - apply Rdiv_lt_0_compat; [lra|]. apply sqrt_lt_R0. exact Hpos.
  - destruct (Rlt_dec _ 2) as [H|H]; [|discriminate]. intros _.
    apply Rmult_lt_compat_r with (r := IZR (Z.of_nat (length values) - 1)) in H;
      [|exact Hdof].
    unfold Rdiv in H. rewrite Rmult_assoc, Rinv_l, Rmult_1_r in H by lra. exact H.
  - intros H. destruct (Rlt_dec _ 2) as [_|N]; [reflexivity|].
    exfalso. apply N.
    apply Rmult_lt_reg_r with (IZR (Z.of_nat (length values) - 1)); [exact Hdof|].
    unfold Rdiv. rewrite Rmult_assoc, Rinv_l, Rmult_1_r by lra. exact H.
Qed.

Lemma joint_fit_parameter_verdict_witness :
  exists r : parameter_fit,
    joint_fit_parameter [6736 / 100; 678 / 10; 685 / 10] [54 / 100; 13 / 10; 5 / 10]
    = Returns r /\
    0 <= pf_chi2 r /\
    pf_dof r = 2%Z.
Proof.
  destruct (joint_fit_parameter_verdict
              [6736 / 100; 678 / 10; 685 / 10] [54 / 100; 13 / 10; 5 / 10])
    as (r & Er & Hc & Hd & _).
  - simpl. lia.
  - reflexivity.
  - repeat constructor; lra.
  - exists r. repeat split; assumption.
Defined.

(** * Validators *)

(** X12: validate_scale_factor accepts exactly the scale factors that
    scale_factor_to_redshift converts: both reject a <= 0 and a > 1 (the
    first with ParameterValidationError, the second with ValueError) and
    accept every 0 < a <= 1. *)
Theorem scale_factor_validator_matches_converter (a : R) :
  (validate_scale_factor a = Returns tt <->
     exists z : R, scale_factor_to_redshift a = Returns z) /\
  (validate_scale_factor a = Raises ParameterValidationError <->
     scale_factor_to_redshift a = Raises ValueError) /\
  (validate_scale_factor a = Returns tt <-> 0 < a <= 1).
Proof.
  assert (Hcases : (a <= 0 \/ 1 < a) \/ 0 < a <= 1) by lra.
  destruct Hcases as [Hout|Hin].
  - rewrite scale_factor_to_redshift_out_of_range by exact Hout.
    unfold validate_scale_factor.
    destruct (bool_decide_reflect (0 < a)); destruct (bool_decide_reflect (a <= 1));
      simpl; try lra;
      (repeat split; intros; try discriminate; try reflexivity; try lra;
       match goal with H : exists _, _ |- _ => destruct H; discriminate end).
  - rewrite scale_factor_to_redshift_in_range by exact Hin.
    unfold validate_scale_factor.
    destruct (bool_decide_reflect (0 < a)); destruct (bool_decide_reflect (a <= 1));
      simpl; try lra.
    repeat split; intros; try discriminate; try reflexivity; try lra.
    eexists; reflexivity.
Qed.

Lemma validate_cosmology_dict_accepts (cosmo : gmap string R) (require_flat : bool) :
  validate_cosmology_dict cosmo require_flat = Returns tt <->
  exists h0 omega_m omega_lambda : R,
    cosmo !! "h0"%string = Some h0 /\
    cosmo !! "omega_m"%string = Some omega_m /\
    cosmo !! "omega_lambda"%string = Some omega_lambda /\
    40 < h0 < 100 /\ 0 < omega_m < 1 /\ 0 < omega_lambda < 1 /\
    (require_flat = true -> Rabs (omega_m + omega_lambda - 1) <= 1 / 100).
Proof.
  unfold validate_cosmology_dict, require_parameters, validate_hubble_constant,
    validate_omega_parameter.
  destruct (cosmo !! "h0"%string) as [h0|] eqn:Eh; simpl.
  2:{ split; [discriminate|]. intros (?&?&?&?&_). discriminate. }
  destruct (cosmo !! "omega_m"%string) as [om|] eqn:Em; simpl.
  2:{ split; [discriminate|]. intros (?&?&?&?&?&_). discriminate. }
  destruct (cosmo !! "omega_lambda"%string) as [ol|] eqn:El; simpl.
  2:{ split; [discriminate|]. intros (?&?&?&?&?&?&_). discriminate. }
  split.
  - intros E. exists h0, om, ol.
    repeat match type of E with
    | context [bool_decide ?P] => destruct (bool_decide_reflect P); simpl in E
    end; try discriminate;
    destruct require_flat; simpl in E; try discriminate;
    repeat match type of E with
    | context [bool_decide ?P] => destruct (bool_decide_reflect P); simpl in E
    end; try discriminate;
    repeat split; try assumption; try reflexivity; intros; try discriminate; lra.
  - intros (h0'&om'&ol'&E1&E2&E3&Hh&Hm&Hl&Hflat).
    injection E1 as <-. injection E2 as <-. injection E3 as <-.
    destruct require_flat; [specialize (Hflat eq_refl)|];
      repeat (decide_R; simpl); reflexivity.
Qed.

Lemma validate_cosmology_dict_total (cosmo : gmap string R) (require_flat : bool) :
  validate_cosmology_dict cosmo require_flat = Returns tt \/
  validate_cosmology_dict cosmo require_flat = Raises ParameterValidationError.
Proof.
  unfold validate_cosmology_dict, require_parameters, validate_hubble_constant,
    validate_omega_parameter.
  destruct (cosmo !! "h0"%string); simpl; [|right; reflexivity].
  destruct (cosmo !! "omega_m"%string); simpl; [|right; reflexivity].
  destruct (cosmo !! "omega_lambda"%string); simpl; [|right; reflexivity].
  repeat match goal with
  | |- context [bool_decide ?P] => destruct (bool_decide P); simpl
  end; try (right; reflexivity).
  all: destruct require_flat; try (left; reflexivity).
  all: repeat match goal with
  | |- context [bool_decide ?P] => destruct (bool_decide P); simpl
  end; (left; reflexivity) || (right; reflexivity).
Qed.

(** X13: the two cosmology validators, validate_cosmology_dict of
    utils/validation.py and validate_cosmology_parameters of
    utils/cosmology.py, accept exactly the same dictionaries; on the
    others the first raises ParameterValidationError and the second
    ValueError. *)
Theorem cosmology_validators_agree (cosmo : gmap string R) (flat : bool) :
  (validate_cosmology_dict cosmo flat = Returns tt <->
     validate_cosmology_parameters cosmo flat = Returns tt) /\
  (validate_cosmology_dict cosmo flat = Raises ParameterValidationError <->
     validate_cosmology_parameters cosmo flat = Raises ValueError).
Proof.
  assert (Hacc : validate_cosmology_dict cosmo flat = Returns tt <->
                 validate_cosmology_parameters cosmo flat = Returns tt).
  { rewrite validate_cosmology_dict_accepts, validate_cosmology_parameters_accepts.
    reflexivity. }
  split; [exact Hacc|].
  destruct (validate_cosmology_dict_total cosmo flat) as [E1|E1];
    destruct (validate_cosmology_parameters_total cosmo flat) as [E2|E2];
    rewrite E1, E2 in *; split; intros; try discriminate; try reflexivity;
    exfalso.
  - assert (N : @Raises unit ValueError = Returns tt) by (apply Hacc; reflexivity).
    discriminate.
  - assert (N : @Raises unit ParameterValidationError = Returns tt)
      by (apply Hacc; reflexivity).
    discriminate.
Qed.

(** X14: validate_convergence_threshold accepts exactly the thresholds
    in [0.01, 0.5]: the first test 0 < t < 1 never decides alone. *)
Theorem convergence_threshold_range (threshold : R) :
  (validate_convergence_threshold threshold = Returns tt <->
     1 / 100 <= threshold <= 5 / 10) /\
  (validate_convergence_threshold threshold <> Returns tt ->
     validate_convergence_threshold threshold = Raises ValidationError).
Proof.
  unfold validate_convergence_threshold.
  repeat match goal with
  | |- context [bool_decide ?P] => destruct (bool_decide_reflect P); simpl
  end; repeat split; intros; try discriminate; try reflexivity; try lra;
  try contradiction.
Qed.

Lemma scale_factor_validator_matches_converter_witness :
  validate_scale_factor (1 / 2) = Returns tt /\
  exists z : R, scale_factor_to_redshift (1 / 2) = Returns z.
Proof.
  pose proof (scale_factor_validator_matches_converter (1 / 2)) as (H1 & _ & H3).
  assert (E : validate_scale_factor (1 / 2) = Returns tt) by (apply H3; lra).
  split; [exact E|]. apply H1. exact E.
Defined.

Lemma cosmology_validators_agree_witness :
  validate_cosmology_dict ∅ true = Raises ParameterValidationError.
Proof.
  apply (cosmology_validators_agree ∅ true). reflexivity.
Defined.

Lemma convergence_threshold_range_witness :
  validate_convergence_threshold (15 / 100) = Returns tt /\
  validate_convergence_threshold (6 / 10) = Raises ValidationError.
Proof.
  split.
  - apply (proj1 (convergence_threshold_range (15 / 100))). lra.
  - apply (proj2 (convergence_threshold_range (6 / 10))).
    intros E. apply (proj1 (convergence_threshold_range (6 / 10))) in E. lra.
Defined.

Lemma validate_measurement_uncertainty_accepts (value sigma : R) :
  validate_measurement_uncertainty value sigma = Returns tt <->
  0 < sigma <= Rabs value.
Proof.
  unfold validate_measurement_uncertainty.
  destruct (Rle_dec sigma 0); [split; [discriminate|lra]|].
  destruct (Rlt_dec (Rabs value) sigma); [split; [discriminate|lra]|].
  split; [lra|reflexivity].
Qed.

(** X15: validate_measurement_uncertainty accepts exactly when
    0 < sigma <= |value| (so never a measurement whose value is 0), and
    raises ValidationError otherwise; two measurements that pass it have
    a defined, non-negative tension. *)
Theorem validated_measurements_have_tension (v1 s1 v2 s2 : R) :
  (validate_measurement_uncertainty v1 s1 = Returns tt <-> 0 < s1 <= Rabs v1) /\
  (validate_measurement_uncertainty v1 s1 <> Returns tt ->
     validate_measurement_uncertainty v1 s1 = Raises ValidationError) /\
  validate_measurement_uncertainty 0 s1 = Raises ValidationError /\
  (validate_measurement_uncertainty v1 s1 = Returns tt ->
   validate_measurement_uncertainty v2 s2 = Returns tt ->
   exists t : R,
     calculate_tension_sigma v1 s1 v2 s2 = Returns t /\
     0 <= t /\
     t = Rabs (v1 - v2) / sqrt (s1 ^ 2 + s2 ^ 2)).
Proof.
  repeat apply conj.
  - apply validate_measurement_uncertainty_accepts.
  - apply validate_measurement_uncertainty_accepts.
  - unfold validate_measurement_uncertainty.
    destruct (Rle_dec s1 0); [reflexivity|].
    destruct (Rlt_dec (Rabs v1) s1); [reflexivity|]. intros N. contradiction.
  - unfold validate_measurement_uncertainty. rewrite Rabs_R0.
    destruct (Rle_dec s1 0); [reflexivity|].
    destruct (Rlt_dec 0 s1); [reflexivity|lra].
  - intros E1 E2.
    apply validate_measurement_uncertainty_accepts in E1, E2.
    rewrite tension_value by (left; lra).
    eexists. split; [reflexivity|]. split; [|reflexivity].
    apply Rmult_le_pos; [apply Rabs_pos|].
    apply Rlt_le, Rinv_0_lt_compat, sqrt_lt_R0. nra.
Qed.

Lemma validated_measurements_have_tension_witness :
  exists t : R,
    calculate_tension_sigma (776 / 1000) (17 / 1000) (834 / 1000) (16 / 1000)
    = Returns t /\
    0 <= t /\
    t = Rabs (776 / 1000 - 834 / 1000) / sqrt ((17 / 1000) ^ 2 + (16 / 1000) ^ 2).
Proof.
  pose proof (validated_measurements_have_tension
                (776 / 1000) (17 / 1000) (834 / 1000) (16 / 1000)) as (_ & _ & _ & H).
  apply H; apply validate_measurement_uncertainty_accepts;
    rewrite Rabs_pos_eq by lra; lra.
Defined.

Lemma validate_bins_loop_accepts (z_bins : list (R * R)) :
  validate_bins_loop z_bins = Returns tt <->
  Forall (fun bin : R * R => 0 <= bin.1 /\ bin.1 < bin.2 /\ bin.2 <= 10) z_bins.
Proof.
  induction z_bins as [|[lo hi] rest IH]; simpl.
  - split; [constructor|reflexivity].
  - unfold validate_redshift.
    destruct (bool_decide_reflect (hi <= lo)).
    { split; [discriminate|]. intros H. inversion H as [|? ? Hb _]; subst.
      simpl in Hb. lra. }
    destruct (Rlt_dec lo 0); simpl.
    { split; [discriminate|]. intros H. inversion H as [|? ? Hb _]; subst.
      simpl in Hb. lra. }
    destruct (Rlt_dec 10 lo); simpl.
    { split; [discriminate|]. intros H. inversion H as [|? ? Hb _]; subst.
      simpl in Hb. lra. }
    destruct (Rlt_dec hi 0); simpl.
    { split; [discriminate|]. intros H. inversion H as [|? ? Hb _]; subst.
      simpl in Hb. lra. }
    destruct (Rlt_dec 10 hi); simpl.
    { split; [discriminate|]. intros H. inversion H as [|? ? Hb _]; subst.
      simpl in Hb. lra. }
    rewrite IH. split.
    + intros H. constructor; [simpl; lra|exact H].
    + intros H. inversion H; subst. assumption.
Qed.

(** X16: validate_redshift_bins accepts exactly the non-empty lists of
    bins with 0 <= z_min < z_max <= 10 in every bin; in particular an
    empty list raises ValidationError. *)
Theorem redshift_bins_accepted (z_bins : list (R * R)) :
  (validate_redshift_bins z_bins = Returns tt <->
     z_bins <> [] /\
     Forall (fun bin : R * R => 0 <= bin.1 /\ bin.1 < bin.2 /\ bin.2 <= 10)
            z_bins) /\
  validate_redshift_bins [] = Raises ValidationError.
Proof.
  split; [|reflexivity].
  destruct z_bins as [|bin rest].
  - simpl. split; [discriminate|]. intros [N _]. contradiction.
  - unfold validate_redshift_bins. rewrite validate_bins_loop_accepts.
    split; [intros H; split; [discriminate|exact H]|intros [_ H]; exact H].
Qed.

Lemma redshift_bins_accepted_witness :
  validate_redshift_bins [(1 / 10, 3 / 10); (3 / 10, 5 / 10)] = Returns tt.
Proof.
  apply (proj1 (redshift_bins_accepted [(1 / 10, 3 / 10); (3 / 10, 5 / 10)])).
  split; [discriminate|]. repeat constructor; simpl; lra.
Defined.

Lemma none_count_le {A : Type} (values : list (option A)) :
  (none_count values <= length values)%nat.
Proof. induction values as [|[x|] rest IH]; simpl; lia. Qed.

Lemma none_count_zero {A : Type} (values : list (option A)) :
  none_count values = 0%nat <-> Forall is_Some values.
Proof.
  induction values as [|[x|] rest IH]; simpl.
  - split; [constructor|reflexivity].
  - rewrite IH. split.
    + intros H. constructor; [exists x; reflexivity|exact H].
    + intros H. inversion H; subst. assumption.
  - split; [discriminate|]. intros H. inversion H as [|? ? [y Hy] _]; subst.
    discriminate.
Qed.

Lemma none_count_all {A : Type} (values : list (option A)) :
  none_count values = length values <-> Forall (fun v => v = None) values.
Proof.
  induction values as [|[x|] rest IH]; simpl.
  - split; [constructor|reflexivity].
  - pose proof (none_count_le rest) as Hle. split; [lia|].
    intros Hall. inversion Hall; subst. discriminate.
  - split.
    + intros Hc. constructor; [reflexivity|]. apply IH. lia.
    + intros Hall. inversion Hall; subst. f_equal. apply IH. assumption.
Qed.

(** X18: validate_all_or_none accepts exactly when every value is given
    or every value is None (an empty call included), and raises
    ValidationError when some but not all are None. *)
Theorem all_or_none_accepted {A : Type} (values : list (option A)) :
  (validate_all_or_none values = Returns tt <->
     Forall is_Some values \/ Forall (fun v => v = None) values) /\
  (validate_all_or_none values <> Returns tt ->
     validate_all_or_none values = Raises ValidationError).
Proof.
  unfold validate_all_or_none.
  rewrite <- none_count_zero, <- none_count_all.
  destruct (Nat.eqb_spec (none_count values) 0) as [E0|N0]; simpl.
  - split; [split; [intros _; left; exact E0|reflexivity]|]. intros N. contradiction.
  - destruct (Nat.eqb_spec (none_count values) (length values)) as [El|Nl]; simpl.
    + split; [split; [intros _; right; exact El|reflexivity]|].
      intros N. contradiction.
    + split; [split; [discriminate|intros [H|H]; contradiction]|reflexivity].
Qed.

Lemma all_or_none_accepted_witness :
  validate_all_or_none [Some 1; None; Some 2] = Raises ValidationError.
Proof.
  apply (proj2 (all_or_none_accepted [Some 1; None; Some 2])).
  intros E. apply (proj1 (all_or_none_accepted [Some 1; None; Some 2])) in E.
  destruct E as [H|H].
  - inversion H as [|? ? _ H']; subst. inversion H' as [|? ? [y Hy] _]; subst.
    discriminate.
  - inversion H; subst. discriminate.
Defined.

(** X19: validate_celestial_coordinates accepts exactly the triples with
    0 <= RA < 360, -90 <= Dec <= 90 and 0 < distance <= max_distance,
    where max_distance is 14000 Mpc when not given; every other triple
    is rejected with a CoordinateValidationError. *)
Theorem celestial_coordinates_accepted
    (ra_deg dec_deg distance_mpc : R) (max_distance : option R) :
  (validate_celestial_coordinates ra_deg dec_deg distance_mpc max_distance = None
   <-> 0 <= ra_deg < 360 /\ -90 <= dec_deg <= 90 /\
       0 < distance_mpc <= default HORIZON_SIZE_TODAY_MPC max_distance) /\
  (validate_celestial_coordinates ra_deg dec_deg distance_mpc max_distance <> None ->
   validate_celestial_coordinates ra_deg dec_deg distance_mpc max_distance
   = Some CoordinateValidationError).
Proof.
  unfold validate_celestial_coordinates, validate_right_ascension,
    validate_declination, validate_distance.
  change (match max_distance with
          | Some m => m
          | None => HORIZON_SIZE_TODAY_MPC
          end) with (default HORIZON_SIZE_TODAY_MPC max_distance).
  generalize (default HORIZON_SIZE_TODAY_MPC max_distance) as m. intros m.
  repeat match goal with
  | |- context [bool_decide ?P] => destruct (bool_decide_reflect P); simpl
  end; repeat split; intros; try discriminate; try reflexivity; try lra;
  try contradiction.
Qed.

Lemma celestial_coordinates_accepted_witness :
  validate_celestial_coordinates 180 45 15000 None = Some CoordinateValidationError.
Proof.
  apply (proj2 (celestial_coordinates_accepted 180 45 15000 None)).
  intros E. apply (proj1 (celestial_coordinates_accepted 180 45 15000 None)) in E.
  simpl in E. unfold HORIZON_SIZE_TODAY_MPC in E. lra.
Defined.

(** * Resolution schedules *)

Lemma sorted_fixed (schedule : list Z) :
  schedule = sorted schedule <-> Sorted Z.le schedule.
Proof.
  unfold sorted. split.
  - intros E. rewrite E. apply Sorted_merge_sort. apply _.
  - intros H. symmetry. apply (Sorted_unique Z.le).
    + apply Sorted_merge_sort. apply _.
    + exact H.
    + apply merge_sort_Permutation.
Qed.

Lemma schedule_range_loop_accepts (schedule : list Z) :
  (schedule_range_loop schedule = Returns tt <->
     Forall in_resolution_range schedule) /\
  (schedule_range_loop schedule = Returns tt \/
   schedule_range_loop schedule = Raises ValueError).
Proof.
  induction schedule as [|bits rest [IH1 IH2]]; simpl.
  - split; [split; [constructor|reflexivity]|left; reflexivity].
  - unfold in_resolution_range in *.
    destruct (bool_decide_reflect (MIN_RESOLUTION_BITS <= bits)%Z);
      destruct (bool_decide_reflect (bits <= MAX_RESOLUTION_BITS)%Z); simpl.
    + split; [|exact IH2]. rewrite IH1. split.
      * intros H. constructor; [lia|exact H].
      * intros H. inversion H; subst. assumption.
    + split; [|right; reflexivity]. split; [discriminate|].
      intros H. inversion H; subst. lia.
    + split; [|right; reflexivity]. split; [discriminate|].
      intros H. inversion H; subst. lia.
    + split; [|right; reflexivity]. split; [discriminate|].
      intros H. inversion H; subst. lia.
Qed.

Lemma validate_bits_loop_accepts (schedule : list Z) :
  validate_bits_loop schedule = None <-> Forall in_resolution_range schedule.
Proof.
  induction schedule as [|bits rest IH]; simpl.
  - split; [constructor|reflexivity].
  - unfold validate_resolution_bits, in_resolution_range in *.
    destruct (bool_decide_reflect (MIN_RESOLUTION_BITS <= bits)%Z);
      destruct (bool_decide_reflect (bits <= MAX_RESOLUTION_BITS)%Z); simpl.
    + rewrite IH. split.
      * intros H. constructor; [lia|exact H].
      * intros H. inversion H; subst. assumption.
    + split; [discriminate|]. intros H. inversion H; subst. lia.
    + split; [discriminate|]. intros H. inversion H; subst. lia.
    + split; [discriminate|]. intros H. inversion H; subst. lia.
Qed.

Lemma remove_dups_length_le (l : list Z) :
  (length (remove_dups l) <= length l)%nat.
Proof.
  induction l as [|x l IH]; simpl; [lia|].
  destruct (decide_rel elem_of x l); simpl; lia.
Qed.

Lemma remove_dups_same_length (l : list Z) :
  length l = length (remove_dups l) <-> NoDup l.
Proof.
  induction l as [|x l IH]; simpl.
  - split; [constructor|reflexivity].
  - pose proof (remove_dups_length_le l) as Hle.
    destruct (decide_rel elem_of x l) as [Hin|Hnin]; simpl.
    + split; [lia|]. intros H. apply NoDup_cons in H. tauto.
    + split.
      * intros H. apply NoDup_cons. split; [exact Hnin|]. apply IH. lia.
      * intros H. apply NoDup_cons in H. f_equal. apply IH. tauto.
Qed.

(** X17: the resolution-schedule validator of config/resolution.py
    accepts exactly the non-empty schedules whose levels lie in [8, 32]
    and are in non-decreasing order; the one of utils/validation.py
    accepts exactly those that in addition have no repeated level, so
    every schedule it accepts is accepted by the other. *)
Theorem resolution_schedule_validators (schedule : list Z) :
  (config_validate_resolution_schedule schedule = Returns tt <->
     schedule <> [] /\ Forall in_resolution_range schedule /\
     Sorted Z.le schedule) /\
  (config_validate_resolution_schedule schedule <> Returns tt ->
     config_validate_resolution_schedule schedule = Raises ValueError) /\
  (validate_resolution_schedule schedule = None <->
     schedule <> [] /\ Forall in_resolution_range schedule /\
     Sorted Z.le schedule /\ NoDup schedule) /\
  (validate_resolution_schedule schedule <> None ->
     validate_resolution_schedule schedule = Some ResolutionValidationError) /\
  (validate_resolution_schedule schedule = None ->
     config_validate_resolution_schedule schedule = Returns tt).
Proof.
  assert (Hconfig :
    (config_validate_resolution_schedule schedule = Returns tt <->
       schedule <> [] /\ Forall in_resolution_range schedule /\
       Sorted Z.le schedule) /\
    (config_validate_resolution_schedule schedule <> Returns tt ->
       config_validate_resolution_schedule schedule = Raises ValueError)).
  { destruct schedule as [|b rest].
    { simpl. split; [|reflexivity]. split; [discriminate|]. intros [N _].
      contradiction. }
    unfold config_validate_resolution_schedule.
    destruct (schedule_range_loop_accepts (b :: rest)) as [Hacc [E|E]];
      rewrite E.
    - rewrite bind_Returns.
      destruct (bool_decide_reflect (b :: rest = sorted (b :: rest))) as [Es|Ns].
      + split; [|intros N; contradiction]. split; [|reflexivity].
        intros _. split; [discriminate|]. split; [apply Hacc; exact E|].
        apply sorted_fixed. exact Es.
      + split; [|reflexivity]. split; [discriminate|].
        intros (_ & _ & Hs). apply sorted_fixed in Hs. contradiction.
    - split; [|reflexivity]. split; [discriminate|].
      intros (_ & Hr & _). apply Hacc in Hr. rewrite E in Hr. discriminate. }
  assert (Hutils :
    (validate_resolution_schedule schedule = None <->
       schedule <> [] /\ Forall in_resolution_range schedule /\
       Sorted Z.le schedule /\ NoDup schedule) /\
    (validate_resolution_schedule schedule <> None ->
       validate_resolution_schedule schedule = Some ResolutionValidationError)).
  { destruct schedule as [|b rest].
    { simpl. split; [|reflexivity]. split; [discriminate|]. intros [N _].
      contradiction. }
    unfold validate_resolution_schedule.
    pose proof (validate_bits_loop_accepts (b :: rest)) as Hacc.
    destruct (validate_bits_loop (b :: rest)) as [e|] eqn:E.
    - assert (e = ResolutionValidationError) as ->.
      { clear -E. induction (b :: rest) as [|x l IH]; simpl in E; [discriminate|].
        unfold validate_resolution_bits in E.
        destruct (negb _); [congruence|apply IH; exact E]. }
      split; [|reflexivity]. split; [discriminate|].
      intros (_ & Hr & _). apply Hacc in Hr. discriminate.
    - destruct (bool_decide_reflect (b :: rest = sorted (b :: rest))) as [Es|Ns];
        cbn [negb].
      + destruct (Nat.eqb_spec (length (b :: rest))
                               (length (remove_dups (b :: rest)))) as [El|Nl];
          cbn [negb].
        * split; [|intros N; contradiction]. split; [|reflexivity].
          intros _. split; [discriminate|]. split; [apply Hacc; reflexivity|].
          split; [apply sorted_fixed; exact Es|].
          apply remove_dups_same_length. exact El.
        * split; [|reflexivity]. split; [discriminate|].
          intros (_ & _ & _ & Hnd). apply remove_dups_same_length in Hnd.
          contradiction.
      + split; [|reflexivity]. split; [discriminate|].
        intros (_ & _ & Hs & _). apply sorted_fixed in Hs. contradiction. }
  destruct Hconfig as [Hc1 Hc2]. destruct Hutils as [Hu1 Hu2].
  split; [exact Hc1|]. split; [exact Hc2|]. split; [exact Hu1|].
  split; [exact Hu2|].
  intros E. apply Hc1. apply Hu1 in E. tauto.
Qed.

Lemma resolution_schedule_validators_witness :
  config_validate_resolution_schedule [8; 8; 12]%Z = Returns tt /\
  validate_resolution_schedule [8; 8; 12]%Z = Some ResolutionValidationError /\
  validate_resolution_schedule [8; 12; 16]%Z = None.
Proof.
  pose proof (resolution_schedule_validators [8; 8; 12]%Z) as (H1 & _ & H3 & H4 & _).
  pose proof (resolution_schedule_validators [8; 12; 16]%Z) as (_ & _ & G3 & _).
  unfold in_resolution_range, MIN_RESOLUTION_BITS, MAX_RESOLUTION_BITS in *.
  split; [|split].
  - apply H1. split; [discriminate|]. split; repeat constructor; lia.
  - apply H4. intros E. apply H3 in E. destruct E as (_ & _ & _ & Hnd).
    apply NoDup_cons in Hnd. destruct Hnd as [Hnin _]. apply Hnin. left.
  - apply G3. split; [discriminate|]. split; [repeat constructor; lia|].
    split; [repeat constructor; lia|].
    apply NoDup_ListNoDup. repeat constructor; simpl; intuition discriminate.
Defined.

(** * Distances and scales *)

Lemma angular_diameter_distance_zero_division (z h0 omega_m : R)
    (omega_lambda : option R) :
  Rabs (omega_m + default (1 - omega_m) omega_lambda - 1) <= 1 / 100 ->
  h0 = 0 \/ z = -1 ->
  calculate_angular_diameter_distance z h0 omega_m omega_lambda
  = Raises ZeroDivisionError.
Proof.
  intros Hflat Hz. unfold calculate_angular_diameter_distance.
  change (match omega_lambda with Some ol => ol | None => 1 - omega_m end)
    with (default (1 - omega_m) omega_lambda).
  destruct (Rlt_dec _ _) as [H|_]; [lra|].
  unfold calculate_hubble_distance.
  destruct (Req_dec_T h0 0) as [->|Hh].
  - rewrite py_div_zero. reflexivity.
  - rewrite py_div_ok, bind_Returns by exact Hh.
    destruct Hz as [Hz|Hz]; [contradiction|]. subst z.
    replace (1 + -1) with 0 by lra. rewrite py_div_zero. reflexivity.
Qed.

(** X20: the three distance functions fail together and in the same
    way: ValueError when |Omega_m + Omega_lambda - 1| > 0.01, otherwise
    ZeroDivisionError when H0 = 0 or z = -1; in every other case they
    return D_A, D_C = D_A (1+z) and D_L = D_A (1+z)^2, and for H0 > 0,
    z >= 0 and Omega_m >= 0 these satisfy 0 <= D_A <= D_C <= D_L. *)
Theorem distance_functions_outcomes (z h0 omega_m : R) (omega_lambda : option R) :
  let flat := Rabs (omega_m + default (1 - omega_m) omega_lambda - 1) <= 1 / 100 in
  let d_a := SPEED_OF_LIGHT_KM_S / h0 * z / (1 + z) * (1 + 5 / 10 * omega_m * z) in
  (~ flat ->
     calculate_angular_diameter_distance z h0 omega_m omega_lambda = Raises ValueError /\
     calculate_comoving_distance z h0 omega_m omega_lambda = Raises ValueError /\
     calculate_luminosity_distance z h0 omega_m omega_lambda = Raises ValueError) /\
  (flat -> h0 = 0 \/ z = -1 ->
     calculate_angular_diameter_distance z h0 omega_m omega_lambda
       = Raises ZeroDivisionError /\
     calculate_comoving_distance z h0 omega_m omega_lambda
       = Raises ZeroDivisionError /\
     calculate_luminosity_distance z h0 omega_m omega_lambda
       = Raises ZeroDivisionError) /\
  (flat -> h0 <> 0 -> z <> -1 ->
     calculate_angular_diameter_distance z h0 omega_m omega_lambda = Returns d_a /\
     calculate_comoving_distance z h0 omega_m omega_lambda
       = Returns (d_a * (1 + z)) /\
     calculate_luminosity_distance z h0 omega_m omega_lambda
       = Returns (d_a * (1 + z) ^ 2)) /\
  (0 < h0 -> 0 <= z -> 0 <= omega_m ->
     0 <= d_a /\ d_a <= d_a * (1 + z) /\ d_a * (1 + z) <= d_a * (1 + z) ^ 2).
Proof.
  intros flat d_a. unfold flat, d_a. clear flat d_a.
  unfold calculate_comoving_distance, calculate_luminosity_distance.
  split; [|split; [|split]].
  - intros N. rewrite angular_diameter_distance_not_flat by lra.
    repeat split.
  - intros Hf Hz. rewrite angular_diameter_distance_zero_division by assumption.
    repeat split.
  - intros Hf Hh Hz. rewrite angular_diameter_distance_flat by assumption.
    repeat split.
  - intros Hh Hz Hm.
    assert (Hc : 0 < SPEED_OF_LIGHT_KM_S / h0).
    { apply Rdiv_lt_0_compat; [unfold SPEED_OF_LIGHT_KM_S; lra|exact Hh]. }
    assert (Hq : 0 <= z / (1 + z)).
    { apply Rmult_le_pos; [exact Hz|]. apply Rlt_le, Rinv_0_lt_compat. lra. }
    assert (Hd : 0 <= SPEED_OF_LIGHT_KM_S / h0 * z / (1 + z)
                      * (1 + 5 / 10 * omega_m * z)).
    { unfold Rdiv in *. rewrite (Rmult_assoc (SPEED_OF_LIGHT_KM_S * / h0) z).
      apply Rmult_le_pos; [apply Rmult_le_pos; [lra|exact Hq]|nra]. }
    split; [exact Hd|]. split; [nra|]. simpl. nra.
Qed.

Lemma distance_functions_outcomes_witness :
  calculate_luminosity_distance 1 70 (3 / 10) (Some (1 / 2)) = Raises ValueError /\
  calculate_comoving_distance (-1) 70 (3 / 10) None = Raises ZeroDivisionError.
Proof.
  split.
  - apply (proj1 (distance_functions_outcomes 1 70 (3 / 10) (Some (1 / 2)))).
    simpl. replace (3 / 10 + 1 / 2 - 1) with (- (2 / 10)) by lra.
    rewrite Rabs_Ropp, Rabs_pos_eq by lra. lra.
  - apply (proj1 (proj2 (distance_functions_outcomes (-1) 70 (3 / 10) None))).
    + apply default_omega_lambda_is_flat.
    + right. reflexivity.
Defined.

Lemma angular_diameter_distance_default (z h0 omega_m : R) :
  h0 <> 0 -> z <> -1 ->
  calculate_angular_diameter_distance z h0 omega_m None
  = Returns (SPEED_OF_LIGHT_KM_S / h0 * z / (1 + z) * (1 + 5 / 10 * omega_m * z)).
Proof.
  intros Hh Hz. apply angular_diameter_distance_flat; try assumption.
  apply default_omega_lambda_is_flat.
Qed.

(** X21: for H0 <> 0, z > 0 and Omega_m >= 0 the two scale conversions
    are inverse to each other: converting an angle to a comoving scale
    and back returns the angle.  At z = 0 the angular-diameter distance
    is 0 and comoving_to_angular_scale raises ZeroDivisionError. *)
Theorem angular_comoving_scale_roundtrip (theta_arcmin z h0 omega_m scale_mpc : R) :
  h0 <> 0 -> 0 < z -> 0 <= omega_m ->
  (exists scale : R,
     angular_to_comoving_scale theta_arcmin z h0 omega_m = Returns scale /\
     comoving_to_angular_scale scale z h0 omega_m = Returns theta_arcmin) /\
  comoving_to_angular_scale scale_mpc 0 h0 omega_m = Raises ZeroDivisionError.
Proof.
  intros Hh Hz Hm. split.
  - unfold angular_to_comoving_scale, comoving_to_angular_scale.
    rewrite angular_diameter_distance_default, bind_Returns by lra.
    eexists. split; [reflexivity|].
    rewrite bind_Returns, py_div_ok, bind_Returns by lra.
    assert (Hc : SPEED_OF_LIGHT_KM_S <> 0) by (unfold SPEED_OF_LIGHT_KM_S; lra).
    assert (Hf : 1 + 5 / 10 * omega_m * z <> 0) by nra.
    pose proof PI_neq0 as Hpi.
    rewrite py_div_ok, bind_Returns.
    + f_equal. field. repeat split; try assumption; lra.
    + unfold Rdiv. repeat apply Rmult_integral_contrapositive_currified;
        try assumption; try lra; apply Rinv_neq_0_compat; try assumption; lra.
  - unfold comoving_to_angular_scale.
    rewrite angular_diameter_distance_default, bind_Returns by lra.
    rewrite py_div_ok, bind_Returns by lra.
    replace (SPEED_OF_LIGHT_KM_S / h0 * 0 / (1 + 0) * (1 + 5 / 10 * omega_m * 0))
      with 0 by (field; lra).
    rewrite py_div_zero. reflexivity.
Qed.

Lemma angular_comoving_scale_roundtrip_witness :
  exists scale : R,
    angular_to_comoving_scale 10 (1 / 2) 70 (3 / 10) = Returns scale /\
    comoving_to_angular_scale scale (1 / 2) 70 (3 / 10) = Returns 10.
Proof.
  apply (angular_comoving_scale_roundtrip 10 (1 / 2) 70 (3 / 10) 1); lra.
Defined.

(** X22: radec_distance_to_cartesian keeps the distance: the returned
    point satisfies x^2 + y^2 + z^2 = distance^2, its z coordinate is
    distance * sin(Dec), and a right ascension shifted by 360 degrees
    gives the same point. *)
Theorem cartesian_keeps_distance (ra_deg dec_deg distance_mpc : R) :
  let p := radec_distance_to_cartesian ra_deg dec_deg distance_mpc in
  p.1.1 ^ 2 + p.1.2 ^ 2 + p.2 ^ 2 = distance_mpc ^ 2 /\
  p.2 = distance_mpc * sin (dec_deg * PI / 180) /\
  radec_distance_to_cartesian (ra_deg + 360) dec_deg distance_mpc = p.
Proof.
  unfold radec_distance_to_cartesian, np_radians. simpl.
  split; [|split].
  - pose proof (sin2_cos2 (ra_deg * PI / 180)) as Hra.
    pose proof (sin2_cos2 (dec_deg * PI / 180)) as Hdec.
    unfold Rsqr in Hra, Hdec.
    set (cr := cos (ra_deg * PI / 180)) in *.
    set (sr := sin (ra_deg * PI / 180)) in *.
    set (cd := cos (dec_deg * PI / 180)) in *.
    set (sd := sin (dec_deg * PI / 180)) in *.
    replace (distance_mpc * cd * cr * (distance_mpc * cd * cr * 1)
             + distance_mpc * cd * sr * (distance_mpc * cd * sr * 1)
             + distance_mpc * sd * (distance_mpc * sd * 1))
      with (distance_mpc * distance_mpc
            * (cd * cd * (sr * sr + cr * cr) + sd * sd)) by ring.
    rewrite Hra. replace (cd * cd * 1 + sd * sd) with (sd * sd + cd * cd) by ring.
    rewrite Hdec. ring.
  - reflexivity.
  - replace ((ra_deg + 360) * PI / 180)
      with (ra_deg * PI / 180 + 2 * INR 1 * PI) by (simpl; field).
    rewrite cos_period, sin_period. reflexivity.
Qed.

Lemma create_cosmo_dict_lookups (h0 omega_m : R) (omega_lambda sigma_8 s8 : option R) :
  let cosmo := create_cosmo_dict h0 omega_m omega_lambda sigma_8 s8 in
  cosmo !! "h0"%string = Some h0 /\
  cosmo !! "omega_m"%string = Some omega_m /\
  cosmo !! "omega_lambda"%string = Some (default (1 - omega_m) omega_lambda).
Proof.
  unfold create_cosmo_dict.
  destruct omega_lambda, sigma_8, s8; simpl; repeat split;
    repeat (rewrite lookup_insert_ne by discriminate);
    rewrite lookup_insert_eq; reflexivity.
Qed.

(** X23: a dictionary built by create_cosmo_dict always has the three
    required keys, whatever optional entries it carries; built without an
    explicit Omega_lambda it passes validate_cosmology_parameters exactly
    when 40 < H0 < 100 and 0 < Omega_m < 1. *)
Theorem created_cosmology_validates
    (h0 omega_m : R) (omega_lambda sigma_8 s8 : option R) (flat_only : bool) :
  (create_cosmo_dict h0 omega_m omega_lambda sigma_8 s8 !! "h0"%string = Some h0 /\
   create_cosmo_dict h0 omega_m omega_lambda sigma_8 s8 !! "omega_m"%string
     = Some omega_m /\
   create_cosmo_dict h0 omega_m omega_lambda sigma_8 s8 !! "omega_lambda"%string
     = Some (default (1 - omega_m) omega_lambda)) /\
  (validate_cosmology_parameters
     (create_cosmo_dict h0 omega_m None sigma_8 s8) flat_only = Returns tt
   <-> 40 < h0 < 100 /\ 0 < omega_m < 1).
Proof.
  split; [apply create_cosmo_dict_lookups|].
  rewrite validate_cosmology_parameters_accepts.
  destruct (create_cosmo_dict_lookups h0 omega_m None sigma_8 s8) as (E1 & E2 & E3).
  simpl in E3. split.
  - intros (h & o & l & L1 & L2 & L3 & Hh & Ho & _).
    rewrite E1 in L1. rewrite E2 in L2. injection L1 as <-. injection L2 as <-.
    split; assumption.
  - intros [Hh Ho]. exists h0, omega_m, (1 - omega_m).
    repeat split; try assumption; try lra.
    replace (omega_m + (1 - omega_m) - 1) with 0 by lra. rewrite Rabs_R0. lra.
Qed.

Lemma created_cosmology_validates_witness :
  validate_cosmology_parameters
    (create_cosmo_dict (6736 / 100) (315 / 1000) None None (Some (834 / 1000))) true
  = Returns tt.
Proof.
  apply (proj2 (created_cosmology_validates
                  (6736 / 100) (315 / 1000) None None (Some (834 / 1000)) true)).
  lra.
Defined.

(** X24: the other direction of the scale-factor round trip: for every
    0 < a <= 1, scale_factor_to_redshift gives a redshift z >= 0 that
    redshift_to_scale_factor converts back to a; and
    redshift_to_scale_factor raises ZeroDivisionError at z = -1, the only
    redshift on which it does not return 1/(1+z). *)
Theorem redshift_scale_factor_roundtrip (a z : R) :
  0 < a <= 1 ->
  (exists z0 : R,
     scale_factor_to_redshift a = Returns z0 /\
     0 <= z0 /\
     redshift_to_scale_factor z0 = Returns a) /\
  redshift_to_scale_factor (-1) = Raises ZeroDivisionError /\
  (z <> -1 -> redshift_to_scale_factor z = Returns (1 / (1 + z))).
Proof.
  intros Ha. split; [|split].
  - exists (1 / a - 1).
    split; [apply scale_factor_to_redshift_in_range; exact Ha|].
    assert (H1 : 1 <= 1 / a).
    { apply Rmult_le_reg_r with a; [lra|].
      unfold Rdiv. rewrite Rmult_assoc, Rinv_l by lra. lra. }
    split; [lra|].
    unfold redshift_to_scale_factor. rewrite py_div_ok by lra.
    f_equal. field. lra.
  - unfold redshift_to_scale_factor. replace (1 + -1) with 0 by lra.
    apply py_div_zero.
  - intros Hz. unfold redshift_to_scale_factor. apply py_div_ok. lra.
Qed.

Lemma redshift_scale_factor_roundtrip_witness :
  exists z0 : R,
    scale_factor_to_redshift (1 / 4) = Returns z0 /\
    0 <= z0 /\
    redshift_to_scale_factor z0 = Returns (1 / 4).
Proof.
  apply (redshift_scale_factor_roundtrip (1 / 4) 0). lra.
Defined.

(** * Resolution levels and cell sizes *)

Lemma two_power_pos (n : Z) : 0 < powerRZ 2 n.
Proof. apply powerRZ_lt. lra. Qed.

Lemma resolution_to_cell_size_value (bits : Z) (horizon : R) :
  resolution_to_cell_size bits horizon = Returns (horizon / powerRZ 2 bits).
Proof.
  unfold resolution_to_cell_size. apply py_div_ok.
  apply Rgt_not_eq, two_power_pos.
Qed.

Lemma log2_two_power (n : Z) : np_log2 (powerRZ 2 n) = Returns (IZR n).
Proof.
  unfold np_log2. destruct (Rlt_dec 0 (powerRZ 2 n)) as [_|N].
  - f_equal. rewrite powerRZ_Rpower by lra. unfold Rpower. rewrite ln_exp.
    field. pose proof ln_lt_2. lra.
  - exfalso. apply N, two_power_pos.
Qed.

Lemma ceil_int_IZR (n : Z) : ceil_int (IZR n) = n.
Proof.
  unfold ceil_int. rewrite <- opp_IZR.
  rewrite <- (Int_part_spec (IZR (- n)) (- n)); [lia|]. lra.
Qed.

Lemma cell_size_to_resolution_range (cell horizon : R) (r : Z) :
  cell_size_to_resolution cell horizon = Returns r -> in_resolution_range r.
Proof.
  unfold cell_size_to_resolution, in_resolution_range,
    MIN_RESOLUTION_BITS, MAX_RESOLUTION_BITS.
  destruct (py_div horizon cell) as [q| |]; try discriminate.
  rewrite bind_Returns.
  destruct (np_log2 q) as [x| |]; try discriminate.
  rewrite bind_Returns. intros E. injection E as <-. lia.
Qed.

(** X25: resolution_to_cell_size always returns horizon / 2^bits, so one
    more bit halves the cell; for a positive horizon and a level in
    [8, 32], cell_size_to_resolution gives back the level whose cell size
    it is handed; whatever it returns lies in [8, 32] (also through
    physical_scale_to_resolution), and a cell size of 0 raises
    ZeroDivisionError. *)
Theorem cell_size_resolution_roundtrip
    (bits n r oversampling : Z) (horizon cell scale : R) :
  0 < horizon -> in_resolution_range n ->
  resolution_to_cell_size bits horizon = Returns (horizon / powerRZ 2 bits) /\
  resolution_to_cell_size (bits + 1) horizon
    = Returns (horizon / powerRZ 2 bits / 2) /\
  (exists c : R,
     resolution_to_cell_size n horizon = Returns c /\
     cell_size_to_resolution c horizon = Returns n) /\
  (cell_size_to_resolution cell horizon = Returns r -> in_resolution_range r) /\
  (physical_scale_to_resolution scale oversampling = Returns r ->
     in_resolution_range r) /\
  cell_size_to_resolution 0 horizon = Raises ZeroDivisionError.
Proof.
  intros Hh Hn. pose proof (two_power_pos bits) as Hb.
  pose proof (two_power_pos n) as Hp.
  split; [apply resolution_to_cell_size_value|].
  split; [|split; [|split; [|split]]].
  - rewrite resolution_to_cell_size_value. f_equal.
    rewrite powerRZ_add by lra. simpl. field. lra.
  - exists (horizon / powerRZ 2 n).
    split; [apply resolution_to_cell_size_value|].
    unfold cell_size_to_resolution.
    rewrite py_div_ok, bind_Returns.
    + replace (horizon / (horizon / powerRZ 2 n)) with (powerRZ 2 n)
        by (field; lra).
      rewrite log2_two_power, bind_Returns, ceil_int_IZR. f_equal.
      unfold in_resolution_range, MIN_RESOLUTION_BITS, MAX_RESOLUTION_BITS in *.
      lia.
    + apply Rgt_not_eq, Rdiv_lt_0_compat; assumption.
  - apply cell_size_to_resolution_range.
  - unfold physical_scale_to_resolution.
    destruct (py_div scale (IZR oversampling)) as [t| |]; try discriminate.
    rewrite bind_Returns. apply cell_size_to_resolution_range.
  - unfold cell_size_to_resolution. rewrite py_div_zero. reflexivity.
Qed.

Lemma cell_size_resolution_roundtrip_witness :
  exists c : R,
    resolution_to_cell_size 16 14000 = Returns c /\
    cell_size_to_resolution c 14000 = Returns 16%Z.
Proof.
  apply (cell_size_resolution_roundtrip 8 16 8 20 14000 1 1).
  - lra.
  - unfold in_resolution_range, MIN_RESOLUTION_BITS, MAX_RESOLUTION_BITS. lia.
Defined.

(** * The two implementations of the correction model *)

(** X26: the correction model exists twice in the source and the copies
    agree on every input: calculate_s8_correction (config) is
    calculate_redshift_dependent_correction (utils) with the default
    exponent, errors included, and fit_correction_pattern (config)
    returns, fails or goes non-finite exactly as fit_baseline_from_bins
    (utils) does, with the same baseline, baseline_std, rms and number of
    points and with the exponent fixed at -0.5. *)
Theorem correction_model_copies_agree (z baseline : R) (zs cs : list R) :
  calculate_s8_correction z baseline = correction z baseline /\
  fit_baseline_from_bins zs cs
  = (p ← fit_correction_pattern zs cs;
     Returns {| fit_baseline := pt_baseline p;
                fit_baseline_std := pt_baseline_std p;
                fit_rms_residual := pt_rms p;
                fit_n_bins := pt_n_points p |}) /\
  (forall p : pattern_fit,
     fit_correction_pattern zs cs = Returns p ->
     pt_exponent p = - (1 / 2) /\ pt_n_points p = length zs).
Proof.
  split; [reflexivity|]. unfold fit_baseline_from_bins, fit_correction_pattern.
  destruct (calculate_redshift_scaling_factor_array zs REDSHIFT_SCALING_EXPONENT)
    as [z_factors| |]; [|split; [reflexivity|discriminate]..].
  rewrite !bind_Returns.
  destruct (np_broadcast np_div cs z_factors) as [baselines| |];
    [|split; [reflexivity|discriminate]..].
  rewrite !bind_Returns.
  destruct (np_mean baselines) as [baseline_mean| |];
    [|split; [reflexivity|discriminate]..].
  rewrite !bind_Returns.
  destruct (np_std baselines) as [baseline_std| |];
    [|split; [reflexivity|discriminate]..].
  rewrite !bind_Returns.
  destruct (np_broadcast _ cs _) as [residuals| |];
    [|split; [reflexivity|discriminate]..].
  rewrite !bind_Returns.
  destruct (np_mean _) as [ms| |]; [|split; [reflexivity|discriminate]..].
  rewrite !bind_Returns.
  destruct (np_sqrt ms) as [rms| |]; [|split; [reflexivity|discriminate]..].
  rewrite !bind_Returns. split; [reflexivity|].
  intros p E. injection E as <-. simpl. split; [|reflexivity].
  unfold REDSHIFT_SCALING_EXPONENT. lra.
Qed.

Lemma correction_model_copies_agree_witness :
  calculate_s8_correction (-1) UNIVERSAL_BASELINE = Raises ZeroDivisionError.
Proof.
  rewrite (proj1 (correction_model_copies_agree (-1) UNIVERSAL_BASELINE [] [])).
  apply correction_minus_one.
Defined.
